(** * Malu: the acquisition pipeline of [ki.py] and its sibling scripts

    A shallow embedding of the orchestration core: the title shortener, the
    metadata enricher, the sign-subtitle filter, the task queue, the upload
    progress callback, the notification adapter and the upload size gate.

    Python [str] values are modelled by [string]; a character is a code point
    below 256.  Python [int] is [Z], Python [float] times are exact rationals
    [Q].  Code that raises is written in an exception monad whose state is the
    world the script acts on. *)

From Stdlib Require Import String Ascii List ZArith QArith Bool Lia Lqa Permutation.
From ExtLib Require Import Structures.Monad Structures.MonadExc.
Import ListNotations.
Import MonadNotation.

Set Warnings "-register-all".

Local Open Scope string_scope.
Local Open Scope Z_scope.

(** ** Python strings *)

Module PyStr.

(** [str.isspace] on one character: the code points below 256 that Python
    treats as whitespace. *)
Definition is_space (c : ascii) : bool :=
  let n := nat_of_ascii c in
  ((9 <=? n) && (n <=? 13) || (28 <=? n) && (n <=? 32)
   || (n =? 133) || (n =? 160))%nat.

Fixpoint lstrip (s : string) : string :=
  match s with
  | EmptyString => EmptyString
  | String c s' => if is_space c then lstrip s' else s
  end.

Fixpoint rstrip (s : string) : string :=
  match s with
  | EmptyString => EmptyString
  | String c s' =>
      match rstrip s' with
      | EmptyString => if is_space c then EmptyString else String c EmptyString
      | r => String c r
      end
  end.

(** [s.strip()] *)
Definition strip (s : string) : string := rstrip (lstrip s).

(** [len(s)] *)
Definition len (s : string) : Z := Z.of_nat (String.length s).

Fixpoint take (n : nat) (s : string) : string :=
  match n, s with
  | O, _ => EmptyString
  | S _, EmptyString => EmptyString
  | S n', String c s' => String c (take n' s')
  end.

(** [s[:k]], with Python's reading of a negative bound. *)
Definition slice_to (s : string) (k : Z) : string :=
  if 0 <=? k then take (Z.to_nat k) s
  else take (Z.to_nat (len s + k)) s.

(** [s.startswith(p)] *)
Definition startswith (s p : string) : bool := String.prefix p s.

(** [s.endswith(p)] *)
Fixpoint endswith (s p : string) : bool :=
  (s =? p)%string ||
  match s with
  | EmptyString => false
  | String _ s' => endswith s' p
  end.

(** [kw in s] *)
Fixpoint contains (kw s : string) : bool :=
  String.prefix kw s ||
  match s with
  | EmptyString => false
  | String _ s' => contains kw s'
  end.

(** [re.split] on a one-character class: every character of the class is a
    separator, empty fields are kept. *)
Fixpoint re_split_class (sep : ascii -> bool) (s : string) : list string :=
  match s with
  | EmptyString => [EmptyString]
  | String c s' =>
      if sep c then EmptyString :: re_split_class sep s'
      else match re_split_class sep s' with
           | [] => [String c EmptyString]
           | p :: ps => String c p :: ps
           end
  end.

(** [s.split(sep, maxsplit)] for a one-character separator. *)
Fixpoint split_max (sep : ascii) (maxsplit : nat) (s : string) : list string :=
  match maxsplit with
  | O => [s]
  | S m =>
      match s with
      | EmptyString => [EmptyString]
      | String c s' =>
          if Ascii.eqb c sep then EmptyString :: split_max sep m s'
          else match split_max sep maxsplit s' with
               | [] => [String c EmptyString]
               | p :: ps => String c p :: ps
               end
      end
  end.

(** [sep.join(parts)] *)
Definition join (sep : string) (parts : list string) : string :=
  String.concat sep parts.

Definition lower_char (c : ascii) : ascii :=
  let n := nat_of_ascii c in
  if ((65 <=? n) && (n <=? 90))%nat then ascii_of_nat (n + 32) else c.

(** [s.lower()] on the letters A-Z. *)
Fixpoint lower (s : string) : string :=
  match s with
  | EmptyString => EmptyString
  | String c s' => String (lower_char c) (lower s')
  end.

(** [c * n] for a one-character string. *)
Fixpoint repeat_char (c : ascii) (n : nat) : string :=
  match n with
  | O => EmptyString
  | S n' => String c (repeat_char c n')
  end.

(** Python truthiness of a string. *)
Definition truthy (s : string) : bool :=
  match s with EmptyString => false | _ => true end.

Fixpoint forallb_str (p : ascii -> bool) (s : string) : bool :=
  match s with
  | EmptyString => true
  | String c s' => p c && forallb_str p s'
  end.

End PyStr.

(** ** Title shortening: [shorten_anime_name] *)

Module Shorten.
Import PyStr.

(** The character class of [re.split(r'[:|]', name)]. *)
Definition is_title_sep (c : ascii) : bool :=
  Ascii.eqb c ":" || Ascii.eqb c "|".

Definition shorten_anime_name (name : string) (max_length : Z) : string :=
  if len name <=? max_length then name
  else
    let parts := re_split_class is_title_sep name in
    let shortened_name := strip (hd EmptyString parts) in
    if len shortened_name >? max_length
    then slice_to shortened_name (max_length - 3) ++ "..."
    else shortened_name.

(** A title is single-segment when it holds no colon and no pipe. *)
Definition single_segment (name : string) : bool :=
  forallb_str (fun c => negb (is_title_sep c)) name.

End Shorten.

(** ** Python control flow: exceptions over a mutable world *)

Module Py.

(** The exceptions the scripts can meet; all derive from [Exception]. *)
Inductive exn : Type :=
| ZeroDivisionError
| TypeError
| AttributeError
| OSError
| RequestException
| MessageNotModified
| FloodWait (x : Z)
| RuntimeError (msg : string).

(** A computation acts on a world [W] and returns or raises; what it did to
    the world before raising stays done. *)
Definition M (W A : Type) : Type := W -> W * (exn + A).

#[export] Instance Monad_M {W} : Monad (M W) :=
  {| ret := fun _ a w => (w, inr a);
     bind := fun _ _ c k w =>
               match c w with
               | (w', inl e) => (w', inl e)
               | (w', inr a) => k a w'
               end |}.

#[export] Instance Exc_M {W} : MonadExc exn (M W) :=
  {| raise := fun _ e w => (w, inl e);
     catch := fun _ c h w =>
                match c w with
                | (w', inl e) => h e w'
                | (w', inr a) => (w', inr a)
                end |}.

(** A call whose outcome is already known. *)
Definition of_result {W A} (r : exn + A) : M W A := fun w => (w, r).

(** [try: c  except Exception: h] *)
Definition try_except {W A} (c : M W A) (h : exn -> M W A) : M W A :=
  catch c h.

(** [try: c  except FloodWait as e: h e.x] *)
Definition try_except_FloodWait {W A} (c : M W A) (h : Z -> M W A) : M W A :=
  catch c (fun e => match e with FloodWait x => h x | _ => raise e end).

(** [try: c  except MessageNotModified: h] *)
Definition try_except_MessageNotModified {W A} (c : M W A) (h : M W A) : M W A :=
  catch c (fun e => match e with MessageNotModified => h | _ => raise e end).

(** [try: c  except requests.exceptions.RequestException: h] *)
Definition try_except_RequestException {W A} (c : M W A) (h : M W A) : M W A :=
  catch c (fun e => match e with RequestException => h | _ => raise e end).

End Py.

(** ** Metadata enricher: [extract_anime_info], [fetch_anilist_cover],
       [download_cover_image], [auto_rename_with_anitopy] *)

Module Enricher.
Import PyStr Py.
Local Open Scope monad_scope.

(** A value of the dictionary [anitopy.parse] returns: a string, or a list
    of strings when an element occurs more than once. *)
Inductive pyval : Type :=
| PStr (s : string)
| PList (l : list string).

Definition dict : Type := list (string * pyval).

(** [d.get(key, default)] *)
Fixpoint dict_get (d : dict) (key : string) (default : pyval) : pyval :=
  match d with
  | [] => default
  | (k, v) :: d' => if (k =? key)%string then v else dict_get d' key default
  end.

(** A decoded JSON document, as far as the cover lookup reads it. *)
Inductive json : Type :=
| JNull
| JStr (s : string)
| JObj (fields : list (string * json))
| JOther.

Fixpoint json_lookup (fields : list (string * json)) (key : string) : option json :=
  match fields with
  | [] => None
  | (k, v) :: fs => if (k =? key)%string then Some v else json_lookup fs key
  end.

(** [v.get(key, default)]: only an object has [get]. *)
Definition json_get (v : json) (key : string) (default : json) : exn + json :=
  match v with
  | JObj fields =>
      inr (match json_lookup fields key with Some x => x | None => default end)
  | _ => inl AttributeError
  end.

Definition json_truthy (v : json) : bool :=
  match v with
  | JNull => false
  | JStr s => truthy s
  | JObj fields => match fields with [] => false | _ => true end
  | JOther => true
  end.

(** What [requests.post] and [requests.get] hand back. *)
Record response : Type := {
  status_code : Z;
  json_body : exn + json;   (* what [response.json()] does *)
  content : string
}.

(** [s.replace(a, b)] for one-character strings. *)
Fixpoint replace_char (a b : ascii) (s : string) : string :=
  match s with
  | EmptyString => EmptyString
  | String c s' => String (if Ascii.eqb c a then b else c) (replace_char a b s')
  end.

Definition newline : ascii := ascii_of_nat 10.

(** [re.sub(open .*? close, '', s)]: [pending] holds the text read since an
    opening character whose closing one has not been met yet; a newline
    ends the attempt and the text is kept. *)
Fixpoint re_sub_delimited (op cl : ascii) (pending : option string) (s : string)
  : string :=
  match s with
  | EmptyString => match pending with Some buf => buf | None => EmptyString end
  | String c s' =>
      match pending with
      | None =>
          if Ascii.eqb c op
          then re_sub_delimited op cl (Some (String c EmptyString)) s'
          else String c (re_sub_delimited op cl None s')
      | Some buf =>
          if Ascii.eqb c cl then re_sub_delimited op cl None s'
          else if Ascii.eqb c newline
               then buf ++ String c (re_sub_delimited op cl None s')
               else re_sub_delimited op cl (Some (buf ++ String c EmptyString)) s'
      end
  end.

Definition is_alnum_ascii (c : ascii) : bool :=
  let n := nat_of_ascii c in
  ((48 <=? n) && (n <=? 57) || (65 <=? n) && (n <=? 90)
   || (97 <=? n) && (n <=? 122))%nat.

(** [re.sub(r'[^a-zA-Z0-9\s]', ' ', s)] *)
Fixpoint re_sub_special (s : string) : string :=
  match s with
  | EmptyString => EmptyString
  | String c s' =>
      String (if is_alnum_ascii c || is_space c then c else " "%char)
             (re_sub_special s')
  end.

(** The three clean-up substitutions of [extract_anime_info]. *)
Definition clean_title (anime_title : string) : string :=
  let t := strip (re_sub_delimited "[" "]" None anime_title) in
  let t := strip (re_sub_delimited "(" ")" None t) in
  strip (re_sub_special t).

(** [s.zfill(width)] *)
Definition zfill (s : string) (width : nat) : string :=
  let pad := repeat_char "0" (width - String.length s) in
  match s with
  | String c s' =>
      if Ascii.eqb c "+" || Ascii.eqb c "-" then String c (pad ++ s')
      else pad ++ s
  | EmptyString => pad
  end.

Definition is_digit (c : ascii) : bool :=
  let n := nat_of_ascii c in ((48 <=? n) && (n <=? 57))%nat.

Fixpoint span_digits (s : string) : string * string :=
  match s with
  | EmptyString => (EmptyString, EmptyString)
  | String c s' =>
      if is_digit c
      then let '(ds, r) := span_digits s' in (String c ds, r)
      else (EmptyString, s)
  end.

(** A match of [\[(\d+p)\]] at the head of [s]; the result is group 1. *)
Definition match_resolution (s : string) : option string :=
  match s with
  | String "["%char r =>
      match span_digits r with
      | (String d ds, String "p"%char (String "]"%char _)) =>
          Some (String d ds ++ "p")
      | _ => None
      end
  | _ => None
  end.

(** [re.search(r"\[(\d+p)\]", s)], group 1 of the leftmost match. *)
Fixpoint re_search_resolution (s : string) : option string :=
  match match_resolution s with
  | Some r => Some r
  | None =>
      match s with
      | EmptyString => None
      | String _ s' => re_search_resolution s'
      end
  end.

(** An optional string inside an f-string. *)
Definition fmt (o : option string) : string :=
  match o with Some s => s | None => "None" end.

(** Truthiness of an optional string ([None] and [''] are false). *)
Definition truthy_opt (o : option string) : bool :=
  match o with Some s => truthy s | None => false end.

Section WithWorld.
(** The world outside the script and the library calls that act on it. *)
Variable W : Type.
Variable anitopy_parse : string -> M W (option dict).
Variable requests_post : string -> M W response.
Variable requests_get : json -> M W response.
Variable os_rename : string -> string -> M W unit.
Variable write_file : string -> string -> M W unit.
Variable time_sleep : Z -> M W unit.
Variable os_path_basename : string -> string.
Variable os_path_dirname : string -> string.
Variable os_path_join : string -> string -> string.
Variable os_path_splitext_root : string -> string.

Definition info : Type := option string * option string * option string.

Definition no_info : info := (None, None, None).

(** [v.zfill(2)]: a list has no [zfill]. *)
Definition zfill2 (v : pyval) : M W string :=
  match v with
  | PStr s => ret (zfill s 2)
  | PList _ => raise AttributeError
  end.

Definition extract_anime_info (filename : string) : M W info :=
  try_except
    (let filename := replace_char "_" " " filename in
     video <- anitopy_parse filename ;;
     match video with
     | None => ret no_info
     | Some [] => ret no_info
     | Some d =>
         match dict_get d "anime_title" (PStr "Unknown") with
         | PStr EmptyString => ret no_info
         | PList [] => ret no_info
         | PList (_ :: _) => raise TypeError   (* [re.sub] on a list *)
         | PStr anime_title =>
             let anime_title := clean_title anime_title in
             season <- zfill2 (dict_get d "anime_season" (PStr "1")) ;;
             episode <- zfill2 (dict_get d "episode_number" (PStr "01")) ;;
             ret (Some anime_title, Some season, Some episode)
         end
     end)
    (fun _ => ret no_info).

(** One round of the retry loop: [Some r] is a [return r] out of the
    function, [None] goes on to the next round. *)
Definition fetch_attempt (anime_title : string) : M W (option json) :=
  try_except_RequestException
    (resp <- requests_post anime_title ;;
     if status_code resp =? 200 then
       data <- of_result (json_body resp) ;;
       d <- of_result (json_get data "data" (JObj [])) ;;
       m <- of_result (json_get d "Media" (JObj [])) ;;
       c <- of_result (json_get m "coverImage" (JObj [])) ;;
       large <- of_result (json_get c "large" JNull) ;;
       ret (Some large)
     else ret None)
    (time_sleep 2 ;; ret None).

Fixpoint fetch_anilist_cover (anime_title : string) (retries : nat) : M W json :=
  match retries with
  | O => ret JNull
  | S n =>
      r <- fetch_attempt anime_title ;;
      match r with
      | Some large => ret large
      | None => fetch_anilist_cover anime_title n
      end
  end.

Definition download_cover_image (url : json) (save_path : string) : M W bool :=
  try_except
    (resp <- requests_get url ;;
     if status_code resp =? 200 then
       write_file save_path (content resp) ;;
       ret true
     else ret false)
    (fun _ => ret false).

(** [re.sub(r'[-:]', ' ', s)] *)
Fixpoint re_sub_dash_colon (s : string) : string :=
  match s with
  | EmptyString => EmptyString
  | String c s' =>
      String (if Ascii.eqb c "-" || Ascii.eqb c ":" then " "%char else c)
             (re_sub_dash_colon s')
  end.

Definition enriched : Type := string * option string * option string.

(** The [try] block of [auto_rename_with_anitopy]. *)
Definition auto_rename_body (file_path service : string) : M W enriched :=
  let filename := os_path_basename file_path in
  '(anime_title, season, episode) <- extract_anime_info filename ;;
  match anime_title with
  | None => ret (file_path, None, None)
  | Some EmptyString => ret (file_path, None, None)
  | Some anime_title =>
      let prefix := if (lower service =? "hidive")%string then "[HD]" else "[CR]" in
      let resolution :=
        match re_search_resolution filename with
        | Some r => r
        | None => "1080p"
        end in
      let shortened_title := Shorten.shorten_anime_name anime_title 25 in
      let output_name :=
        prefix ++ " " ++ shortened_title ++ " - S" ++ fmt season ++ "E"
               ++ fmt episode ++ " [" ++ resolution ++ "].mkv" in
      let new_file_path := os_path_join (os_path_dirname file_path) output_name in
      os_rename file_path new_file_path ;;
      cover_url <- fetch_anilist_cover anime_title 3 ;;
      cover_url <-
        (if json_truthy cover_url then ret cover_url
         else
           let fallback_title := strip (re_sub_dash_colon anime_title) in
           fetch_anilist_cover fallback_title 3) ;;
      if negb (json_truthy cover_url)
      then ret (new_file_path, None, Some shortened_title)
      else
        let thumbnail_path := os_path_splitext_root new_file_path ++ "_cover.jpg" in
        ok <- download_cover_image cover_url thumbnail_path ;;
        if ok then ret (new_file_path, Some thumbnail_path, Some shortened_title)
        else ret (new_file_path, None, Some shortened_title)
  end.

Definition auto_rename_with_anitopy (file_path service : string) : M W enriched :=
  try_except
    (auto_rename_body file_path service)
    (fun _ => ret (file_path, None, None)).

End WithWorld.

End Enricher.

(** ** Sign subtitles: [extract_sign_subtitles], [add_sign_subtitles] and the
       subtitle step of [download_anime] *)

Module SignSubs.
Import PyStr Py.
Local Open Scope monad_scope.

(** The state of the loop over the lines of the extracted file. *)
Record scan : Type := {
  in_events : bool;
  header : list string;
  sign_lines : list string
}.

Definition scan_init : scan :=
  {| in_events := false; header := []; sign_lines := [] |}.

Definition style_keywords : list string := ["BW Phone Bubble"; "Text Date"].
Definition effect_text_keywords : list string := ["\an"; "\fad"; "\pos"; "\fs"].
Definition actor_keyword : string := "Sign".

Definition events_format : string :=
  "Format: Layer, Start, End, Style, Name, MarginL, MarginR, MarginV, Effect, Text".

Definition add_header (st : scan) (entries : list string) (events : bool) : scan :=
  {| in_events := events; header := header st ++ entries;
     sign_lines := sign_lines st |}.

Definition add_sign_line (st : scan) (line : string) : scan :=
  {| in_events := in_events st; header := header st;
     sign_lines := sign_lines st ++ [line] |}.

(** The three tests on the fields of a dialogue line that split into ten. *)
Definition style_match (parts : list string) : bool :=
  let style := strip (nth 3 parts EmptyString) in
  existsb (fun keyword => contains keyword style) style_keywords.

Definition effect_text_match (parts : list string) : bool :=
  let effect := strip (nth 8 parts EmptyString) in
  let text := strip (nth 9 parts EmptyString) in
  existsb (fun keyword => contains keyword effect || contains keyword text)
          effect_text_keywords.

Definition actor_match (parts : list string) : bool :=
  let name := strip (nth 4 parts EmptyString) in
  contains actor_keyword name.

(** One round of [for line in lines]. *)
Definition scan_line (st : scan) (raw : string) : scan :=
  let line := strip raw in
  if startswith line "[Events]" then
    add_header st [line; events_format] true
  else if in_events st && startswith line "Dialogue:" then
    let parts := split_max "," 9 line in
    if (List.length parts <? 10)%nat then st
    else if style_match parts then add_sign_line st line
    else if effect_text_match parts then add_sign_line st line
    else if actor_match parts then add_sign_line st line
    else st
  else if startswith line "[" then
    add_header st [line] false
  else if negb (in_events st) then
    add_header st [line] (in_events st)
  else st.

Definition scan_lines (lines : list string) : scan :=
  fold_left scan_line lines scan_init.

(** What is written back: the header, then the kept cues if there are any. *)
Definition rebuild (st : scan) : string :=
  join (String Enricher.newline EmptyString) (header st)
  ++ match sign_lines st with
     | [] => EmptyString
     | _ => String Enricher.newline
              (join (String Enricher.newline EmptyString) (sign_lines st))
     end.

Definition carriage_return : ascii := ascii_of_nat 13.

(** [f.readlines()] of a file opened in text mode: a line ends after a line
    feed, a carriage return or the pair, and the ending is read as one line
    feed; [cur] is the line being read. *)
Fixpoint readlines (cur : string) (s : string) : list string :=
  match s with
  | EmptyString => match cur with EmptyString => [] | _ => [cur] end
  | String c s' =>
      if Ascii.eqb c Enricher.newline then
        (cur ++ String Enricher.newline EmptyString) :: readlines EmptyString s'
      else if Ascii.eqb c carriage_return then
        match s' with
        | String c' s'' =>
            if Ascii.eqb c' Enricher.newline
            then (cur ++ String Enricher.newline EmptyString)
                   :: readlines EmptyString s''
            else (cur ++ String Enricher.newline EmptyString)
                   :: readlines EmptyString s'
        | EmptyString => [cur ++ String Enricher.newline EmptyString]
        end
      else readlines (cur ++ String c EmptyString) s'
  end.

(** The size in bytes of a text written as UTF-8. *)
Fixpoint utf8_size (s : string) : Z :=
  match s with
  | EmptyString => 0
  | String c s' => (if (nat_of_ascii c <? 128)%nat then 1 else 2) + utf8_size s'
  end.

(** The files on disk, by path, the commands run so far, and the paths
    the operating system refuses to remove or to replace (a file in use, a
    directory, a missing permission). *)
Definition fs : Type := string -> option string.

Record World : Type := {
  files : fs;
  calls : list (list string);
  locked : string -> bool
}.

Definition fs_set (f : fs) (path : string) (text : option string) : fs :=
  fun p => if (p =? path)%string then text else f p.

Definition set_files (w : World) (f : fs) : World :=
  {| files := f; calls := calls w; locked := locked w |}.

Definition read_lines (path : string) : M World (list string) :=
  fun w => match files w path with
           | Some text => (w, inr (readlines EmptyString text))
           | None => (w, inl OSError)
           end.

Definition write_text (path text : string) : M World unit :=
  fun w => (set_files w (fs_set (files w) path (Some text)), inr tt).

Definition os_path_exists (path : string) : M World bool :=
  fun w => (w, inr (match files w path with Some _ => true | None => false end)).

Definition os_path_getsize (path : string) : M World Z :=
  fun w => match files w path with
           | Some text => (w, inr (utf8_size text))
           | None => (w, inl OSError)
           end.

(** [os.remove(path)]: raises when there is no such file and when the
    removal is refused; a refused removal leaves the file. *)
Definition os_remove (path : string) : M World unit :=
  fun w => match files w path with
           | Some _ =>
               if locked w path then (w, inl OSError)
               else (set_files w (fs_set (files w) path None), inr tt)
           | None => (w, inl OSError)
           end.

(** [os.replace(src, dst)]: raises when [src] is missing and when either
    path is refused; a refused replacement changes nothing. *)
Definition os_replace (src dst : string) : M World unit :=
  fun w => match files w src with
           | Some text =>
               if locked w src || locked w dst then (w, inl OSError)
               else
                 (set_files w
                    (fs_set (fs_set (files w) dst (Some text)) src None),
                  inr tt)
           | None => (w, inl OSError)
           end.

Section WithTools.
(** What an external command does to the files, and its return code; it
    raises when the program cannot be started. *)
Variable tool : list string -> fs -> fs * (exn + Z).
Variable os_path_splitext_root : string -> string.

Definition subprocess_run (command : list string) : M World Z :=
  fun w =>
    let '(f, r) := tool command (files w) in
    ({| files := f; calls := calls w ++ [command]; locked := locked w |}, r).

Definition extract_command (input_file output_sub_file : string) : list string :=
  ["ffmpeg"; "-y"; "-i"; input_file; "-map"; "0:s:0"; "-c:s"; "ass";
   output_sub_file].

Definition extract_sign_subtitles (input_file output_sub_file : string)
  : M World bool :=
  try_except
    (returncode <- subprocess_run (extract_command input_file output_sub_file) ;;
     if negb (returncode =? 0) then ret false
     else
       lines <- read_lines output_sub_file ;;
       write_text output_sub_file (rebuild (scan_lines lines)) ;;
       ret true)
    (fun _ => ret false).

Definition merge_command (temp_output input_file sign_sub_file : string)
  : list string :=
  ["mkvmerge"; "-o"; temp_output; input_file; "--language"; "0:eng";
   "--track-name"; "0:English Sign"; "--default-track"; "0:yes"; sign_sub_file].

Definition add_sign_subtitles (input_file sign_sub_file : string) : M World bool :=
  let temp_output := input_file ++ ".temp.mkv" in
  try_except
    (present <- os_path_exists sign_sub_file ;;
     if negb present then ret false
     else
       returncode <-
         subprocess_run (merge_command temp_output input_file sign_sub_file) ;;
       if negb (returncode =? 0) then
         os_remove temp_output ;;
         ret false
       else
         os_replace temp_output input_file ;;
         ret true)
    (fun _ =>
       left_over <- os_path_exists temp_output ;;
       (if left_over then os_remove temp_output else ret tt) ;;
       ret false).

(** The subtitle step of the task in [download_anime]. *)
Definition sign_subtitle_step (latest_file : string) : M World unit :=
  let sign_sub_file := os_path_splitext_root latest_file ++ "_sign.ass" in
  extracted <- extract_sign_subtitles latest_file sign_sub_file ;;
  if extracted then
    size <- os_path_getsize sign_sub_file ;;
    if size >? 0 then
      add_sign_subtitles latest_file sign_sub_file ;;
      os_remove sign_sub_file
    else
      os_remove sign_sub_file
  else ret tt.

(** A merge into the container is a run of the muxer. *)
Definition is_merge (command : list string) : bool :=
  match command with
  | c :: _ => (c =? "mkvmerge")%string
  | [] => false
  end.

Definition merge_performed (w : World) : bool := existsb is_merge (calls w).

End WithTools.

End SignSubs.

(** ** Task queue: [process_queue] and the submission at the end of
       [download_anime] *)

Module Queue.
Local Open Scope list_scope.

(** A task closure, named by the number it was submitted under. *)
Definition task : Type := nat.

(** A [process_queue] coroutine: created by [asyncio.create_task] and not
    run yet, suspended in [await current_task()], or returned. *)
Inductive drain : Type :=
| Scheduled
| Awaiting (t : task)
| Returned.

Record state : Type := {
  task_queue : list task;
  current_task : option task;
  drains : list drain;        (* in order of creation *)
  completed : list task       (* in order of completion *)
}.

Definition init : state :=
  {| task_queue := []; current_task := None; drains := []; completed := [] |}.

Fixpoint set_nth {A} (i : nat) (x : A) (l : list A) : list A :=
  match l, i with
  | [], _ => []
  | _ :: l', O => x :: l'
  | y :: l', S i' => y :: set_nth i' x l'
  end.

(** Lines 470-474 of [download_anime]: append under the lock and create a
    drain coroutine when no task is current.  The handler does not await
    on this path, so it runs as one step of the event loop. *)
Definition submit (t : task) (s : state) : state :=
  let q := (task_queue s ++ [t])%list in
  match current_task s with
  | None =>
      {| task_queue := q; current_task := None;
         drains := drains s ++ [Scheduled]; completed := completed s |}
  | Some c =>
      {| task_queue := q; current_task := Some c;
         drains := drains s; completed := completed s |}
  end.

(** The head of [while True] in coroutine [i], up to its next suspension:
    return on an empty queue, else pop the head and await it. *)
Definition loop_head (i : nat) (s : state) : state :=
  match task_queue s with
  | [] =>
      {| task_queue := []; current_task := None;
         drains := set_nth i Returned (drains s); completed := completed s |}
  | t :: q =>
      {| task_queue := q; current_task := Some t;
         drains := set_nth i (Awaiting t) (drains s); completed := completed s |}
  end.

(** The awaited task of coroutine [i] ends (normally or by an exception,
    which is logged): [finally] clears [current_task] and the loop goes
    round without suspending. *)
Definition task_ends (i : nat) (t : task) (s : state) : state :=
  loop_head i
    {| task_queue := task_queue s; current_task := None;
       drains := drains s; completed := completed s ++ [t] |}.

(** What the event loop can run next. *)
Inductive event : Type :=
| Submit (t : task)     (* a [/download] handler reaches line 470 *)
| Start (i : nat)       (* coroutine [i] runs for the first time *)
| Finish (i : nat).     (* the task awaited by coroutine [i] ends *)

Definition step (s : state) (e : event) : option state :=
  match e with
  | Submit t => Some (submit t s)
  | Start i =>
      match nth_error (drains s) i with
      | Some Scheduled => Some (loop_head i s)
      | _ => None
      end
  | Finish i =>
      match nth_error (drains s) i with
      | Some (Awaiting t) => Some (task_ends i t s)
      | _ => None
      end
  end.

Fixpoint run (s : state) (es : list event) : option state :=
  match es with
  | [] => Some s
  | e :: es' =>
      match step s e with
      | Some s' => run s' es'
      | None => None
      end
  end.

(** The tasks in the running state. *)
Fixpoint running_of (ds : list drain) : list task :=
  match ds with
  | [] => []
  | Awaiting t :: ds' => t :: running_of ds'
  | _ :: ds' => running_of ds'
  end.

Definition running (s : state) : list task := running_of (drains s).

(** The drain loops that have not returned. *)
Definition live_drains (s : state) : nat :=
  List.length (filter (fun d => match d with Returned => false | _ => true end)
                      (drains s)).

(** The tasks submitted by a schedule, in order. *)
Fixpoint submitted (es : list event) : list task :=
  match es with
  | [] => []
  | Submit t :: es' => t :: submitted es'
  | _ :: es' => submitted es'
  end.

Definition is_scheduled (d : drain) : bool :=
  match d with Scheduled => true | _ => false end.

(** A schedule is prompt when no submission is handled while a created
    drain coroutine has not run yet. *)
Fixpoint prompt (s : state) (es : list event) : bool :=
  match es with
  | [] => true
  | e :: es' =>
      match e with
      | Submit _ => negb (existsb is_scheduled (drains s))
      | _ => true
      end
      && match step s e with
         | Some s' => prompt s' es'
         | None => true
         end
  end.

(** The shapes of the state under prompt schedules, with [subs] the tasks
    submitted so far: no live drain, one drain created and not run, or one
    drain awaiting the current task. *)
Inductive shape (s : state) (subs : list task) : Prop :=
| Idle :
    task_queue s = [] -> current_task s = None ->
    Forall (eq Returned) (drains s) ->
    completed s = subs ->
    shape s subs
| Pending (before after : list drain) :
    current_task s = None ->
    drains s = before ++ Scheduled :: after ->
    Forall (eq Returned) before -> Forall (eq Returned) after ->
    completed s ++ task_queue s = subs ->
    shape s subs
| Busy (t : task) (before after : list drain) :
    current_task s = Some t ->
    drains s = before ++ Awaiting t :: after ->
    Forall (eq Returned) before -> Forall (eq Returned) after ->
    completed s ++ t :: task_queue s = subs ->
    shape s subs.

End Queue.

(** ** The status channel: [progress], [safe_edit_message] and the upload
       step of [download_anime] *)

Module Telegram.
Import PyStr Py.
Local Open Scope monad_scope.

(** The handle of a status message; [text] is [message.text]. *)
Record Message : Type := { text : string }.

(** One [edit_text] call that went out to the channel. *)
Record edit : Type := {
  sent_at : Q;
  sent_text : string;
  accepted : bool
}.

Record World : Type := {
  clock : Q;                     (* what [time.time()] returns *)
  last_update_time : Q;          (* the module-level global *)
  answers : list (option exn);   (* the channel's answers to the coming
                                    [edit_text] calls; [None] accepts *)
  edits : list edit;             (* the calls made, oldest first *)
  sleeps : list Z;               (* the [asyncio.sleep] calls *)
  sizes : string -> option Z;    (* the files on disk and their sizes *)
  documents : list string        (* the files given to [send_document] *)
}.

Definition set_clock (t : Q) : M World unit :=
  fun w =>
    ({| clock := t; last_update_time := last_update_time w;
        answers := answers w; edits := edits w; sleeps := sleeps w;
        sizes := sizes w; documents := documents w |}, inr tt).

Definition set_last_update_time (t : Q) : M World unit :=
  fun w =>
    ({| clock := clock w; last_update_time := t;
        answers := answers w; edits := edits w; sleeps := sleeps w;
        sizes := sizes w; documents := documents w |}, inr tt).

Definition time_time : M World Q := fun w => (w, inr (clock w)).

Definition get_last_update_time : M World Q :=
  fun w => (w, inr (last_update_time w)).

(** [await message.edit_text(new_text)]: one request to the channel. *)
Definition edit_text (message : Message) (new_text : string) : M World unit :=
  fun w =>
    let answer := hd None (answers w) in
    let e := {| sent_at := clock w; sent_text := new_text;
                accepted := match answer with None => true | Some _ => false end |} in
    ({| clock := clock w; last_update_time := last_update_time w;
        answers := tl (answers w); edits := edits w ++ [e]; sleeps := sleeps w;
        sizes := sizes w; documents := documents w |},
     match answer with None => inr tt | Some x => inl x end).

Definition asyncio_sleep (x : Z) : M World unit :=
  fun w =>
    ({| clock := clock w; last_update_time := last_update_time w;
        answers := answers w; edits := edits w; sleeps := sleeps w ++ [x];
        sizes := sizes w; documents := documents w |}, inr tt).

Definition os_path_getsize (path : string) : M World Z :=
  fun w => match sizes w path with
           | Some n => (w, inr n)
           | None => (w, inl OSError)
           end.

Definition os_path_exists (path : string) : M World bool :=
  fun w => (w, inr (match sizes w path with Some _ => true | None => false end)).

Definition os_remove (path : string) : M World unit :=
  fun w =>
    match sizes w path with
    | Some _ =>
        ({| clock := clock w; last_update_time := last_update_time w;
            answers := answers w; edits := edits w; sleeps := sleeps w;
            sizes := fun p => if (p =? path)%string then None else sizes w p;
            documents := documents w |}, inr tt)
    | None => (w, inl OSError)
    end.

Definition log_document (document : string) : M World unit :=
  fun w =>
    ({| clock := clock w; last_update_time := last_update_time w;
        answers := answers w; edits := edits w; sleeps := sleeps w;
        sizes := sizes w; documents := documents w ++ [document] |}, inr tt).

(** [a / b] on numbers: a zero divisor raises. *)
Definition py_div (a b : Q) : M World Q :=
  if Qeq_bool b 0 then raise ZeroDivisionError else ret (a / b)%Q.

(** [int(x)]: truncation towards zero. *)
Definition py_int (x : Q) : Z := Z.quot (Qnum x) (Zpos (Qden x)).

(** [s * n] *)
Fixpoint str_mul_nat (s : string) (n : nat) : string :=
  match n with
  | O => EmptyString
  | S n' => s ++ str_mul_nat s n'
  end.

Definition str_mul (s : string) (n : Z) : string := str_mul_nat s (Z.to_nat n).

Definition nl : string := String Enricher.newline EmptyString.

(** The notification adapter as [ki.py], [rc.py], [rot.py] and [kot.py]
    have it. *)
Module Ki.
Definition safe_edit_message (message : Message) (new_text : string)
  : M World unit :=
  try_except_FloodWait
    (if (text message =? new_text)%string then ret tt
     else edit_text message new_text)
    (fun x => asyncio_sleep x ;; edit_text message new_text).
End Ki.

(** The notification adapter as [bot.py] has it. *)
Module Bot.
Definition safe_edit_message (message : Message) (new_text : string)
  : M World unit :=
  try_except_FloodWait
    (edit_text message new_text)
    (fun x => asyncio_sleep x ;; edit_text message new_text).
End Bot.

(** The numbers of one status text. *)
Record figures : Type := {
  elapsed_time : Q;
  speed : Q;
  eta : Q;
  progress_percentage : Q;
  progress_blocks : Z;
  empty_blocks : Z
}.

(** The arithmetic inside the [try] of [progress]. *)
Definition progress_figures (current total : Z) (start_time current_time : Q)
  : M World figures :=
  let elapsed_time := (current_time - start_time)%Q in
  speed <- (if Qlt_le_dec 0 elapsed_time
            then py_div (inject_Z current) elapsed_time
            else ret 0%Q) ;;
  eta <- (if Qlt_le_dec 0 speed
          then py_div (inject_Z (total - current)) speed
          else ret 0%Q) ;;
  ratio <- py_div (inject_Z current) (inject_Z total) ;;
  let progress_percentage := (ratio * 100)%Q in
  let bar_length := 20 in
  filled <- py_div (inject_Z (bar_length * current)) (inject_Z total) ;;
  let progress_blocks := py_int filled in
  let empty_blocks := bar_length - progress_blocks in
  ret {| elapsed_time := elapsed_time; speed := speed; eta := eta;
         progress_percentage := progress_percentage;
         progress_blocks := progress_blocks; empty_blocks := empty_blocks |}.

Section Rendering.
(** [f"{x:.2f}"], [f"{n}"], [f"{e}"], the two glyphs of the bar (code
    points above 255) and [os.path.basename]. *)
Variable fmt_2f : Q -> string.
Variable fmt_int : Z -> string.
Variable fmt_exn : exn -> string.
Variable full_block empty_block : string.
Variable os_path_basename : string -> string.

Definition mebi : Q := inject_Z (1024 ^ 2).

Definition status_text (filename : string) (current total : Z) (f : figures)
  : string :=
  let progress_bar :=
    str_mul full_block (progress_blocks f)
    ++ str_mul empty_block (empty_blocks f) in
  "File: `" ++ filename ++ "`" ++ nl
  ++ "Progress: " ++ fmt_2f (progress_percentage f) ++ "%" ++ nl
  ++ fmt_2f (inject_Z current / mebi)%Q ++ " MB of "
  ++ fmt_2f (inject_Z total / mebi)%Q ++ " MB" ++ nl
  ++ "Speed: " ++ fmt_2f (speed f / mebi)%Q ++ " MB/s" ++ nl
  ++ "ETA: " ++ fmt_int (py_int (eta f)) ++ "s" ++ nl
  ++ "Elapsed: " ++ fmt_int (py_int (elapsed_time f)) ++ "s" ++ nl
  ++ "[" ++ progress_bar ++ "] " ++ fmt_2f (progress_percentage f) ++ "%".

(** The upload progress callback, run from its first line to its last
    with nothing else scheduled while it awaits [edit_text].  Module
    [Transfers] below splits it at the [await] and lets the callbacks of
    several transfers take turns. *)
Definition progress (current total : Z) (message : Message) (filename : string)
           (start_time : Q) : M World unit :=
  current_time <- time_time ;;
  last <- get_last_update_time ;;
  if Qle_bool 2 (current_time - last) then
    try_except_MessageNotModified
      (f <- progress_figures current total start_time current_time ;;
       edit_text message (status_text filename current total f) ;;
       set_last_update_time current_time)
      (ret tt)
  else ret tt.

(** One call of the callback by [send_document]: the clock reading and
    the byte counts it is called with. *)
Record sample : Type := { now : Q; sent : Z; size : Z }.

(** The callbacks of one transfer, one after the other, when no other
    transfer runs meanwhile. *)
Fixpoint callbacks (samples : list sample) (message : Message)
         (filename : string) (start_time : Q) : M World unit :=
  match samples with
  | [] => ret tt
  | x :: rest =>
      set_clock (now x) ;;
      progress (sent x) (size x) message filename start_time ;;
      callbacks rest message filename start_time
  end.

(** [client.send_document(..., progress=progress, progress_args=...)]:
    the transfer calls the callback once per sample; what the callback
    raises ends the transfer. *)
Definition send_document (document : string) (samples : list sample)
           (message : Message) (filename : string) (start_time : Q)
  : M World unit :=
  log_document document ;;
  callbacks samples message filename start_time.

(** Lines 441-449 of [download_anime]: a transfer from its start. *)
Definition transfer (document : string) (samples : list sample)
           (message : Message) : M World unit :=
  start_time <- time_time ;;
  send_document document samples message (os_path_basename document) start_time.

Definition size_limit : Z := 2 * 1024 ^ 3.

(** The upload step of the task in [download_anime] ([try] at line 432).
    The status texts are given without the emoji that starts them. *)
Definition upload_step (status_message : Message) (latest_file : string)
           (thumbnail_path : option string) (samples : list sample)
  : M World unit :=
  try_except
    (Ki.safe_edit_message status_message "Uploading to Telegram..." ;;
     file_size <- os_path_getsize latest_file ;;
     if file_size >? size_limit then
       edit_text status_message "File size exceeds Telegram's 2GB limit."
     else
       transfer latest_file samples status_message ;;
       Ki.safe_edit_message status_message "**Upload complete on Telegram!**" ;;
       os_remove latest_file ;;
       match thumbnail_path with
       | Some p =>
           there <- (if truthy p then os_path_exists p else ret false) ;;
           if there then os_remove p else ret tt
       | None => ret tt
       end)
    (fun e =>
       Ki.safe_edit_message status_message ("Error during upload: " ++ fmt_exn e)).

End Rendering.

(** Two edits are apart when the second was sent at least two seconds
    after the first; a list of edits is spaced when this holds for every
    earlier-later pair of it. *)
Definition apart (e1 e2 : edit) : Prop := (2 <= sent_at e2 - sent_at e1)%Q.

Definition spaced (es : list edit) : Prop := ForallOrdPairs apart es.

(** What one call of the callback can do to the world: nothing, an edit
    the channel accepted, or an edit it turned down. *)
Inductive progress_outcome (w w' : World) : Prop :=
| Silent :
    edits w' = edits w -> last_update_time w' = last_update_time w ->
    progress_outcome w w'
| Emitted (e : edit) :
    edits w' = (edits w ++ [e])%list -> sent_at e = clock w -> accepted e = true ->
    (2 <= clock w - last_update_time w)%Q ->
    last_update_time w' = clock w ->
    progress_outcome w w'
| Rejected (e : edit) :
    edits w' = (edits w ++ [e])%list -> accepted e = false ->
    last_update_time w' = last_update_time w ->
    progress_outcome w w'.

(** The gate invariant over the edits [new] of a transfer: the accepted
    ones are spaced, and none of them is later than the gate. *)
Definition gated (new : list edit) (w : World) : Prop :=
  spaced (filter accepted new)
  /\ Forall (fun e => (sent_at e <= last_update_time w)%Q) (filter accepted new).

(** A computation that leaves the files on disk and the list of sent
    documents as they are. *)
Definition keeps {A} (c : M World A) : Prop :=
  forall w, documents (fst (c w)) = documents w /\ sizes (fst (c w)) = sizes w.

End Telegram.

(** ** Statements about computations *)

Module PySpec.
Import Py.

(** Every value [c] returns satisfies [P]. *)
Definition ensures {W A} (c : M W A) (P : A -> Prop) : Prop :=
  forall w, match snd (c w) with inr a => P a | inl _ => True end.

(** [c] returns from every world: it never raises. *)
Definition never_raises {W A} (c : M W A) : Prop :=
  forall w, exists w' a, c w = (w', inr a).

End PySpec.

(** ** The catalog seen from the retry loop of [fetch_anilist_cover] *)

Module Catalog.
Import Py.

(** The answers the catalog will give to the coming requests, the search
    strings posted so far and the [time.sleep] calls made so far.  A request
    past the end of the script fails like a dropped connection. *)
Record Net : Type := {
  script : list (exn + Enricher.response);
  posts : list string;
  naps : list Z
}.

Definition requests_post (search : string) : M Net Enricher.response :=
  fun w =>
    match script w with
    | [] =>
        ({| script := []; posts := (posts w ++ [search])%list; naps := naps w |},
         inl RequestException)
    | r :: rest =>
        ({| script := rest; posts := (posts w ++ [search])%list; naps := naps w |}, r)
    end.

Definition time_sleep (seconds : Z) : M Net unit :=
  fun w =>
    ({| script := script w; posts := posts w; naps := (naps w ++ [seconds])%list |},
     inr tt).

Definition fetch_anilist_cover (anime_title : string) (retries : nat)
  : M Net Enricher.json :=
  Enricher.fetch_anilist_cover Net requests_post time_sleep anime_title retries.

End Catalog.

(** ** Vocabulary for the enricher's results *)

Module EnricherSpec.

(** The characters a cleaned title is made of. *)
Definition title_char (c : ascii) : bool :=
  Enricher.is_alnum_ascii c || PyStr.is_space c.

End EnricherSpec.

(** ** Vocabulary for the subtitle filter *)

Module SignSubsSpec.
Import PyStr SignSubs.

(** What the filter asks of a line before it keeps it. *)
Definition sign_cue (line : string) : Prop :=
  startswith line "Dialogue:" = true
  /\ List.length (split_max "," 9 line) = 10%nat
  /\ (style_match (split_max "," 9 line)
      || effect_text_match (split_max "," 9 line)
      || actor_match (split_max "," 9 line)) = true.

(** [kept] is what is left of [read] when some of its entries are taken
    out: the same entries, as often and in the same order. *)
Inductive selection {A : Type} : list A -> list A -> Prop :=
| selection_nil : selection [] []
| selection_skip (x : A) (kept read : list A) :
    selection kept read -> selection kept (x :: read)
| selection_take (x : A) (kept read : list A) :
    selection kept read -> selection (x :: kept) (x :: read).

End SignSubsSpec.

(** ** The newest video: [get_latest_file] of [ki.py] *)

Module Latest.
Import PyStr Py.
Local Open Scope monad_scope.

Section WithDirectory.
(** What [os.listdir] and [os.path.getctime] answer, and [os.path.join].
    The reads change nothing, so the world is left out: a computation is a
    computation on [unit]. *)
Variable os_listdir : string -> exn + list string.
Variable os_path_getctime : string -> exn + Q.
Variable os_path_join : string -> string -> string.

(** [max(files, key=...)] once the first element has been taken: a later
    element replaces the best one only when its key is strictly greater. *)
Fixpoint max_by_ctime (directory : string) (best : string) (best_key : Q)
         (rest : list string) : M unit string :=
  match rest with
  | [] => ret best
  | x :: rest' =>
      k <- of_result (os_path_getctime (os_path_join directory x)) ;;
      if Qlt_le_dec best_key k
      then max_by_ctime directory x k rest'
      else max_by_ctime directory best best_key rest'
  end.

Definition get_latest_file (directory : string) : M unit (option string) :=
  try_except
    (names <- of_result (os_listdir directory) ;;
     let files := filter (fun f => endswith f ".mkv") names in
     match files with
     | [] => ret None
     | first :: rest =>
         first_key <- of_result (os_path_getctime (os_path_join directory first)) ;;
         newest <- max_by_ctime directory first first_key rest ;;
         ret (Some (os_path_join directory newest))
     end)
    (fun _ => ret None).

End WithDirectory.

End Latest.

(** ** [mkv.py]: [sanitize_filename] and [cleanup_files] *)

Module Mkv.
Import PyStr Py.
Local Open Scope monad_scope.

(** The character class that [sanitize_filename] replaces by an underscore:
    less-than, greater-than, colon, double quote, slash, backslash, pipe,
    question mark and star. *)
Definition is_unsafe (c : ascii) : bool :=
  let n := nat_of_ascii c in
  ((n =? 60) || (n =? 62) || (n =? 58) || (n =? 34) || (n =? 47) || (n =? 92)
   || (n =? 124) || (n =? 63) || (n =? 42))%nat.

Fixpoint sanitize_filename (filename : string) : string :=
  match filename with
  | EmptyString => EmptyString
  | String c s => String (if is_unsafe c then "_"%char else c) (sanitize_filename s)
  end.

(** The disk as [cleanup_files] meets it: which paths exist, and which of
    them cannot be removed ([os.remove] raises on those). *)
Record Disk : Type := {
  present : string -> bool;
  locked : string -> bool
}.

Definition os_path_exists (path : string) : M Disk bool :=
  fun d => (d, inr (present d path)).

Definition os_remove (path : string) : M Disk unit :=
  fun d =>
    if present d path && negb (locked d path)
    then ({| present := fun p => if (p =? path)%string then false else present d p;
             locked := locked d |}, inr tt)
    else (d, inl OSError).

(** [cleanup_files] over its arguments; an argument may be [None]. *)
Fixpoint cleanup_files (paths : list (option string)) : M Disk unit :=
  match paths with
  | [] => ret tt
  | path :: rest =>
      (if Enricher.truthy_opt path then
         let p := match path with Some p => p | None => EmptyString end in
         there <- os_path_exists p ;;
         if there then try_except (os_remove p) (fun _ => ret tt) else ret tt
       else ret tt) ;;
      cleanup_files rest
  end.

End Mkv.

(** ** The acquisition command of [download_anime] *)

Module Command.
Import PyStr.

(** [s.split()]: the maximal runs of non-whitespace characters; [cur] is the
    run being read. *)
Fixpoint split_ws (cur : string) (s : string) : list string :=
  match s with
  | EmptyString => match cur with EmptyString => [] | _ => [cur] end
  | String c s' =>
      if is_space c
      then match cur with
           | EmptyString => split_ws EmptyString s'
           | _ => cur :: split_ws EmptyString s'
           end
      else split_ws (cur ++ String c EmptyString) s'
  end.

(** Lines 372-389 of [ki.py]: the service tag and the command line built
    from the tokens of a [/download] message that has at least two of them. *)
Definition download_command (command : list string) : string * list string :=
  let anime_id := nth 1 command EmptyString in
  let other_options := join " " (skipn 2 command) in
  if contains "hidive" (lower other_options)
  then ("hidive",
        (["./aniDL"; "--service"; "hidive"; "-s"; anime_id]
           ++ split_ws EmptyString other_options)%list)
  else ("crunchy",
        (["./aniDL"; "--service"; "crunchy"; "--srz"; anime_id]
           ++ split_ws EmptyString other_options)%list).

(** A token with no whitespace in it, and not empty. *)
Definition plain_token (t : string) : bool :=
  truthy t && forallb_str (fun c => negb (is_space c)) t.

End Command.

(** ** Transfers that overlap: [progress] on the event loop *)

Module Transfers.
Import PyStr Py Telegram.
Local Open Scope monad_scope.

(** What a call of [progress] holds while it is suspended in
    [await message.edit_text(...)]: its reading of the clock, and the
    channel's answer, which it meets when it resumes. *)
Record awaiting : Type := { read_at : Q; answer : exn + unit }.

(** One transfer: the arguments [send_document] passes to every call of
    its callback. *)
Record upload : Type := {
  status_message : Message;
  file_name : string;
  started_at : Q
}.

(** The event loop either lets [send_document] of transfer [i] call the
    callback with a sample, which then runs to its [await] or to its end,
    or lets the suspended callback of transfer [i] run on to its end. *)
Inductive event : Type :=
| Call (i : nat) (x : sample)
| Resume (i : nat).

Record state : Type := {
  world : World;
  suspended : list (nat * awaiting);   (* the callbacks inside their await *)
  ended : list nat                     (* the transfers a callback's
                                          exception has ended *)
}.


Fixpoint lookup (i : nat) (l : list (nat * awaiting)) : option awaiting :=
  match l with
  | [] => None
  | (j, a) :: rest => if Nat.eqb i j then Some a else lookup i rest
  end.

Definition drop (i : nat) (l : list (nat * awaiting)) : list (nat * awaiting) :=
  filter (fun p => negb (Nat.eqb i (fst p))) l.

(** [progress] from the [await] to its end.  The global is written with
    the clock reading taken before the [await], whatever was written to it
    meanwhile. *)
Definition progress_from_await (a : awaiting) : M World unit :=
  try_except_MessageNotModified
    (of_result (answer a) ;;
     set_last_update_time (read_at a))
    (ret tt).

Section Rendering.
Variable fmt_2f : Q -> string.
Variable fmt_int : Z -> string.
Variable full_block empty_block : string.

(** [progress] from its first line to the [await]: the gate is tested
    against the global as it is now, and the request goes out. *)
Definition progress_to_await (current total : Z) (message : Message)
           (filename : string) (start_time : Q) : M World (option awaiting) :=
  current_time <- time_time ;;
  last <- get_last_update_time ;;
  if Qle_bool 2 (current_time - last) then
    try_except_MessageNotModified
      (f <- progress_figures current total start_time current_time ;;
       fun w =>
         let r := edit_text message
                    (status_text fmt_2f fmt_int full_block empty_block
                       filename current total f) w in
         (fst r, inr (Some {| read_at := current_time; answer := snd r |})))
      (ret None)
  else ret None.

Definition step (uploads : list upload) (s : state) (e : event) : option state :=
  match e with
  | Call i x =>
      match nth_error uploads i, lookup i (suspended s) with
      | Some u, None =>
          if existsb (Nat.eqb i) (ended s) then None
          else
            let r := (set_clock (now x) ;;
                      progress_to_await (sent x) (size x) (status_message u)
                        (file_name u) (started_at u)) (world s) in
            Some
              match snd r with
              | inr (Some a) =>
                  {| world := fst r; suspended := suspended s ++ [(i, a)];
                     ended := ended s |}
              | inr None =>
                  {| world := fst r; suspended := suspended s;
                     ended := ended s |}
              | inl _ =>
                  {| world := fst r; suspended := suspended s;
                     ended := i :: ended s |}
              end
      | _, _ => None
      end
  | Resume i =>
      match lookup i (suspended s) with
      | Some a =>
          let r := progress_from_await a (world s) in
          Some {| world := fst r; suspended := drop i (suspended s);
                  ended := match snd r with
                           | inl _ => i :: ended s
                           | inr _ => ended s
                           end |}
      | None => None
      end
  end.

Fixpoint run (uploads : list upload) (s : state) (es : list event)
  : option state :=
  match es with
  | [] => Some s
  | e :: rest =>
      match step uploads s e with
      | Some s' => run uploads s' rest
      | None => None
      end
  end.

(** A schedule keeps the transfers apart when no callback is called while
    another one is inside its [await]. *)
Fixpoint exclusive (uploads : list upload) (s : state) (es : list event)
  : bool :=
  match es with
  | [] => true
  | e :: rest =>
      match e, suspended s with
      | Call _ _, _ :: _ => false
      | _, _ =>
          match step uploads s e with
          | Some s' => exclusive uploads s' rest
          | None => true
          end
      end
  end.

End Rendering.


End Transfers.

(** ** Concrete inputs used below *)

Module Samples.

(** Sixteen blanks, then twenty-four letters. *)
Definition padded_title : string :=
  "                aaaaaaaaaaaaaaaaaaaaaaaa".












Definition join_slash (a b : string) : string := a ++ "/" ++ b.

Definition splitext_mkv (p : string) : string :=
  String.substring 0 (String.length p - 4) p.




Definition cue_plain : string :=
  "Dialogue: 0,0:00:01.00,0:00:02.00,Default,,0,0,0,,Hello there".

(** Nine fields only: the text field is missing. *)
Definition cue_short : string :=
  "Dialogue: 0,0:00:01.00,0:00:02.00,Text Date,Sign - Narrator,0,0,0,\pos".

Definition in_events_section : SignSubs.scan :=
  {| SignSubs.in_events := true;
     SignSubs.header := ["[Events]"; SignSubs.events_format];
     SignSubs.sign_lines := [] |}.

(** An extracted track whose only cue is plain dialogue. *)
Definition plain_track : string :=
  PyStr.join (String Enricher.newline EmptyString)
    ["[Script Info]"; "Title: Episode 1"; "[Events]";
     "Format: Layer, Start, End, Style, Name, MarginL, MarginR, MarginV, Effect, Text";
     cue_plain].

(** The extractor writes [plain_track] to its last argument; the muxer
    writes its output file; both succeed. *)
Definition tools (command : list string) (f : SignSubs.fs)
  : SignSubs.fs * (Py.exn + Z) :=
  match command with
  | "ffmpeg" :: _ =>
      (SignSubs.fs_set f (last command EmptyString) (Some plain_track), inr 0)
  | "mkvmerge" :: _ :: out :: _ =>
      (SignSubs.fs_set f out (Some "merged"), inr 0)
  | _ => (f, inl Py.OSError)
  end.

Definition disk : SignSubs.World :=
  {| SignSubs.files :=
       fun p => if (p =? "videos/show.mkv")%string then Some "video" else None;
     SignSubs.calls := [];
     SignSubs.locked := fun _ => false |}.

(** The status channel: a quiet world at clock 100 whose last accepted
    status went out at [last]. *)
Definition channel (last : Q) : Telegram.World :=
  {| Telegram.clock := 100; Telegram.last_update_time := last;
     Telegram.answers := []; Telegram.edits := []; Telegram.sleeps := [];
     Telegram.sizes :=
       fun p => if (p =? "videos/show.mkv")%string then Some (2 * 1024 ^ 3)
                else if (p =? "videos/big.mkv")%string then Some (2 * 1024 ^ 3 + 1)
                else None;
     Telegram.documents := [] |}.

(** The channel turns the next edit down as unchanged. *)
Definition channel_unchanged : Telegram.World :=
  {| Telegram.clock := 100; Telegram.last_update_time := 0;
     Telegram.answers := [Some Py.MessageNotModified]; Telegram.edits := [];
     Telegram.sleeps := []; Telegram.sizes := fun _ => None;
     Telegram.documents := [] |}.

Definition status : Telegram.Message := {| Telegram.text := "Progress: 10%" |}.

Definition fmt_q (x : Q) : string := "0.00".
Definition fmt_z (n : Z) : string := "0".
Definition fmt_e (e : Py.exn) : string := "error".
Definition base (p : string) : string := p.


Definition later : Telegram.sample :=
  {| Telegram.now := 103; Telegram.sent := 10; Telegram.size := 10 |}.

(** The catalog answers 200 with an empty object once. *)
Definition answer_200_empty : Enricher.response :=
  {| Enricher.status_code := 200;
     Enricher.json_body := inr (Enricher.JObj []);
     Enricher.content := EmptyString |}.

Definition catalog_empty_answer : Catalog.Net :=
  {| Catalog.script := [inr answer_200_empty];
     Catalog.posts := []; Catalog.naps := [] |}.

(** The disk once the sign track has been written. *)
Definition disk_with_sign : SignSubs.World :=
  {| SignSubs.files :=
       fun p => if (p =? "videos/show.mkv")%string then Some "video"
                else if (p =? "videos/show_sign.ass")%string
                     then Some "[Script Info]"
                     else None;
     SignSubs.calls := [];
     SignSubs.locked := fun _ => false |}.

(** The same disk when the system refuses to touch one path. *)
Definition disk_refusing (path : string) : SignSubs.World :=
  {| SignSubs.files := SignSubs.files disk_with_sign;
     SignSubs.calls := [];
     SignSubs.locked := fun p => (p =? path)%string |}.

(** The channel asks for a wait of 30 seconds, then accepts. *)
Definition channel_flooded : Telegram.World :=
  {| Telegram.clock := 100; Telegram.last_update_time := 0;
     Telegram.answers := [Some (Py.FloodWait 30)]; Telegram.edits := [];
     Telegram.sleeps := []; Telegram.sizes := fun _ => None;
     Telegram.documents := [] |}.

(** A working directory with the downloaded and the encoded file. *)
Definition work_dir : Mkv.Disk :=
  {| Mkv.present :=
       fun p => (p =? "a.mkv")%string || (p =? "a_encoded.mkv")%string;
     Mkv.locked := fun _ => false |}.

(** A video directory with two videos, the second one newer, and a music
    directory with no video. *)
Definition listing (directory : string) : Py.exn + list string :=
  if (directory =? "videos")%string then inr ["a.mkv"; "notes.txt"; "b.mkv"]
  else if (directory =? "music")%string then inr ["song.mp3"]
  else inl Py.OSError.

Definition ctimes (path : string) : Py.exn + Q :=
  if (path =? "videos/a.mkv")%string then inr 10%Q
  else if (path =? "videos/b.mkv")%string then inr 20%Q
  else inl Py.OSError.









End Samples.

(** * Properties *)

(** ** Facts about the string operations *)

Section PyStrFacts.
Import PyStr.

Lemma length_app_str (s t : string) :
  String.length (s ++ t) = (String.length s + String.length t)%nat.
Proof. induction s as [|c s IH]; simpl; [reflexivity | now rewrite IH]. Qed.

Lemma length_take (n : nat) (s : string) :
  String.length (take n s) = Nat.min n (String.length s).
Proof.
  revert s; induction n as [|n IH]; intros [|c s]; simpl; try reflexivity.
  now rewrite IH.
Qed.

Lemma endswith_refl (p : string) : endswith p p = true.
Proof. destruct p; cbn [endswith]; now rewrite String.eqb_refl. Qed.

Lemma endswith_app (s p : string) : endswith (s ++ p) p = true.
Proof.
  induction s as [|c s IH]; simpl.
  - apply endswith_refl.
  - rewrite IH. apply orb_true_r.
Qed.

Lemma re_split_class_single (sep : ascii -> bool) (s : string) :
  forallb_str (fun c => negb (sep c)) s = true ->
  re_split_class sep s = [s].
Proof.
  induction s as [|c s IH]; simpl; intros H; [reflexivity|].
  apply andb_true_iff in H as [Hc Hs].
  apply negb_true_iff in Hc. rewrite Hc, (IH Hs). reflexivity.
Qed.

Lemma prefix_refl (p : string) : String.prefix p p = true.
Proof.
  induction p as [|c p IH]; simpl; [reflexivity|].
  destruct (ascii_dec c c); [exact IH | congruence].
Qed.

Lemma prefix_app (p s : string) : String.prefix p (p ++ s) = true.
Proof.
  induction p as [|c p IH]; simpl; [now destruct s|].
  destruct (ascii_dec c c); [exact IH | congruence].
Qed.

Lemma contains_refl (kw : string) : contains kw kw = true.
Proof. destruct kw; cbn [contains]; now rewrite prefix_refl. Qed.

Lemma contains_prefix (kw s : string) :
  String.prefix kw s = true -> contains kw s = true.
Proof. destruct s; cbn [contains]; intros ->; reflexivity. Qed.

Lemma contains_app (kw pre post : string) :
  contains kw (pre ++ kw ++ post) = true.
Proof.
  induction pre as [|c pre IH].
  - change ("" ++ kw ++ post) with (kw ++ post).
    apply contains_prefix, prefix_app.
  - change (String c pre ++ kw ++ post) with (String c (pre ++ kw ++ post)).
    cbn [contains]. rewrite IH. apply orb_true_r.
Qed.

Lemma startswith_head (s p : string) (c d : ascii) :
  c <> d -> startswith (String c s) (String d p) = false.
Proof.
  intros H. unfold startswith. simpl.
  destruct (ascii_dec d c); [congruence | reflexivity].
Qed.

Lemma startswith_inv (s p : string) (d : ascii) :
  startswith s (String d p) = true -> exists s', s = String d s'.
Proof.
  unfold startswith. destruct s as [|c s]; simpl; [discriminate|].
  destruct (ascii_dec d c); [subst; eauto | discriminate].
Qed.

End PyStrFacts.

(** ** Facts about the exception monad *)

Section PyFacts.
Import Py.
Context {W : Type}.

Lemma bind_run {A B} (c : M W A) (k : A -> M W B) (w : W) :
  bind c k w
  = match c w with
    | (w', inl e) => (w', inl e)
    | (w', inr a) => k a w'
    end.
Proof. reflexivity. Qed.

Lemma catch_run {A} (c : M W A) (h : exn -> M W A) (w : W) :
  catch c h w
  = match c w with
    | (w', inl e) => h e w'
    | (w', inr a) => (w', inr a)
    end.
Proof. reflexivity. Qed.

End PyFacts.

(** ** Title shortening *)

Section ShortenFacts.
Import PyStr Shorten.

Lemma shorten_short (name : string) (max_length : Z) :
  len name <= max_length -> shorten_anime_name name max_length = name.
Proof.
  intros H. unfold shorten_anime_name.
  destruct (Z.leb_spec (len name) max_length); [reflexivity | lia].
Qed.

Lemma shorten_long_single (name : string) (max_length : Z) :
  3 <= max_length ->
  max_length < len name ->
  single_segment name = true ->
  max_length < len (strip name) ->
  shorten_anime_name name max_length
  = take (Z.to_nat (max_length - 3)) (strip name) ++ "...".
Proof.
  intros H3 Hlen Hseg Hstrip. unfold shorten_anime_name.
  destruct (Z.leb_spec (len name) max_length); [lia|].
  unfold single_segment in Hseg.
  rewrite (re_split_class_single _ _ Hseg). simpl hd.
  destruct (Z.gtb_spec (len (strip name)) max_length); [|lia].
  unfold slice_to.
  destruct (Z.leb_spec 0 (max_length - 3)); [reflexivity | lia].
Qed.

(** C7, as stated, fails: a 40-character title with no colon or pipe that
    starts with sixteen blanks is shortened to its 24 letters, which is
    neither 25 characters long nor ended by an ellipsis. *)
Lemma shorten_anime_name_padded_counterexample :
  String.length Samples.padded_title = 40%nat
  /\ single_segment Samples.padded_title = true
  /\ shorten_anime_name Samples.padded_title 25 = "aaaaaaaaaaaaaaaaaaaaaaaa"
  /\ String.length (shorten_anime_name Samples.padded_title 25) <> 25%nat
  /\ endswith (shorten_anime_name Samples.padded_title 25) "..." = false.
Proof. vm_compute. repeat split; discriminate. Qed.

(** C7 (amended): with bound 25, ["Attack on Titan: Final Season"] becomes
    ["Attack on Titan"]; every 40-character title with no colon or pipe
    whose whitespace-stripped form is longer than 25 characters becomes
    exactly 25 characters ending in ["..."]; a title of at most 25
    characters is returned unchanged. *)
Theorem shorten_anime_name_bound_25 :
  shorten_anime_name "Attack on Titan: Final Season" 25 = "Attack on Titan"
  /\ (forall name : string,
        String.length name = 40%nat ->
        single_segment name = true ->
        25 < len (strip name) ->
        String.length (shorten_anime_name name 25) = 25%nat
        /\ endswith (shorten_anime_name name 25) "..." = true)
  /\ (forall name : string,
        len name <= 25 -> shorten_anime_name name 25 = name).
Proof.
  split; [reflexivity|]. split.
  - intros name H40 Hseg Hstrip.
    rewrite shorten_long_single; try assumption; try lia.
    + split.
      * rewrite length_app_str, length_take. unfold len in Hstrip.
        change (Z.to_nat (25 - 3)) with 22%nat. simpl String.length. lia.
      * apply endswith_app.
    + unfold len. lia.
  - intros name H. now apply shorten_short.
Qed.

Lemma shorten_anime_name_bound_25_witness :
  String.length (shorten_anime_name "Fullmetal Alchemist Brotherhood Specials" 25)
  = 25%nat
  /\ endswith (shorten_anime_name "Fullmetal Alchemist Brotherhood Specials" 25)
              "..." = true.
Proof.
  apply (proj1 (proj2 shorten_anime_name_bound_25)
           "Fullmetal Alchemist Brotherhood Specials").
  - reflexivity.
  - reflexivity.
  - vm_compute. reflexivity.
Defined.

End ShortenFacts.

(** ** Metadata enricher *)

Section EnricherFacts.
Import PyStr Py Enricher.

Variable W : Type.
Variable anitopy_parse : string -> M W (option dict).
Variable requests_post : string -> M W response.
Variable requests_get : json -> M W response.
Variable os_rename : string -> string -> M W unit.
Variable write_file : string -> string -> M W unit.
Variable time_sleep : Z -> M W unit.
Variable os_path_basename os_path_dirname os_path_splitext_root : string -> string.
Variable os_path_join : string -> string -> string.

Let extract := extract_anime_info W anitopy_parse.
Let body :=
  auto_rename_body W anitopy_parse requests_post requests_get os_rename
    write_file time_sleep os_path_basename os_path_dirname os_path_join
    os_path_splitext_root.
Let rename :=
  auto_rename_with_anitopy W anitopy_parse requests_post requests_get os_rename
    write_file time_sleep os_path_basename os_path_dirname os_path_join
    os_path_splitext_root.

Lemma try_except_returns {A} (c : M W A) (h : exn -> M W A) (w : W) :
  (forall e w', exists w'' a, h e w' = (w'', inr a)) ->
  exists w'' a, try_except c h w = (w'', inr a).
Proof.
  intros Hh. unfold try_except. simpl.
  destruct (c w) as [w' [e|a]]; [apply Hh | eauto].
Qed.

Lemma extract_anime_info_returns (filename : string) (w : W) :
  exists w' i, extract filename w = (w', inr i).
Proof.
  apply try_except_returns. intros e w'. simpl. eauto.
Qed.

Lemma download_cover_image_returns (url : json) (save_path : string) (w : W) :
  exists w' b,
    download_cover_image W requests_get write_file url save_path w = (w', inr b).
Proof.
  apply try_except_returns. intros e w'. simpl. eauto.
Qed.




End EnricherFacts.


(** ** Sign subtitles *)

Section SignSubsFacts.
Import PyStr Py SignSubs.

Lemma not_events_of_dialogue (line : string) :
  startswith line "Dialogue:" = true -> startswith line "[Events]" = false.
Proof.
  intros H. apply startswith_inv in H as [s' ->].
  apply startswith_head. discriminate.
Qed.

(** The dialogue branch of the loop body, for a line of the Events section
    that starts with [Dialogue:]. *)
Lemma scan_line_dialogue (st : scan) (raw : string) :
  in_events st = true ->
  startswith (strip raw) "Dialogue:" = true ->
  scan_line st raw
  = let parts := split_max "," 9 (strip raw) in
    if (List.length parts <? 10)%nat then st
    else if style_match parts || effect_text_match parts || actor_match parts
         then add_sign_line st (strip raw)
         else st.
Proof.
  intros Hev Hd. unfold scan_line.
  rewrite (not_events_of_dialogue _ Hd), Hev, Hd. cbn [andb].
  cbv zeta.
  destruct (List.length (split_max "," 9 (strip raw)) <? 10)%nat; [reflexivity|].
  destruct (style_match _), (effect_text_match _), (actor_match _); reflexivity.
Qed.

(** What a line adds to the sign lines stays there to the end of the scan,
    and so reaches the rewritten file. *)
Lemma sign_lines_kept (lines : list string) (st : scan) (line : string) :
  In line (sign_lines st) -> In line (sign_lines (fold_left scan_line lines st)).
Proof.
  revert st. induction lines as [|raw lines IH]; intros st Hin; [exact Hin|].
  cbn [fold_left]. apply IH. unfold scan_line.
  repeat match goal with
         | |- context [if ?b then _ else _] => destruct b
         end;
    cbn [sign_lines add_header add_sign_line]; try exact Hin;
    apply in_or_app; left; exact Hin.
Qed.



(** C10: a dialogue line of the Events section that splits into fewer than
    ten fields leaves the loop state as it was: it reaches neither the
    header nor the sign lines, whatever its fields hold. *)
Theorem scan_line_short_dropped (st : scan) (raw : string) :
  in_events st = true ->
  startswith (strip raw) "Dialogue:" = true ->
  (List.length (split_max "," 9 (strip raw)) < 10)%nat ->
  scan_line st raw = st.
Proof.
  intros Hev Hd Hlen.
  rewrite (scan_line_dialogue _ _ Hev Hd). cbv zeta.
  apply Nat.ltb_lt in Hlen. rewrite Hlen. reflexivity.
Qed.

Lemma scan_line_short_dropped_witness :
  style_match (split_max "," 9 Samples.cue_short) = true
  /\ scan_line Samples.in_events_section Samples.cue_short
     = Samples.in_events_section.
Proof.
  split; [reflexivity|].
  apply (scan_line_short_dropped Samples.in_events_section Samples.cue_short).
  - reflexivity.
  - reflexivity.
  - vm_compute. lia.
Defined.

Lemma kept_cue_in_output (before after : list string) (raw : string) :
  scan_line (scan_lines before) raw
  = add_sign_line (scan_lines before) (strip raw) ->
  In (strip raw) (sign_lines (scan_lines (before ++ raw :: after))).
Proof.
  intros Hk. unfold scan_lines in *. rewrite fold_left_app. cbn [fold_left].
  apply sign_lines_kept. rewrite Hk. cbn [sign_lines add_sign_line].
  apply in_or_app. right. now left.
Qed.

Lemma dropped_cue_leaves_output (before after : list string) (raw : string) :
  scan_line (scan_lines before) raw = scan_lines before ->
  scan_lines (before ++ raw :: after) = scan_lines (before ++ after).
Proof.
  intros Hd. unfold scan_lines in *. rewrite !fold_left_app. cbn [fold_left].
  now rewrite Hd.
Qed.

Lemma utf8_size_pos (s : string) : s <> EmptyString -> 0 < utf8_size s.
Proof.
  assert (forall t, 0 <= utf8_size t) as Hnn.
  { induction t as [|c t IH]; simpl; [lia|]. destruct (_ <? _)%nat; lia. }
  destruct s as [|c s]; [congruence|]. intros _. simpl.
  specialize (Hnn s). destruct (_ <? _)%nat; lia.
Qed.

Lemma fs_set_same (f : fs) (p : string) (t : option string) : fs_set f p t p = t.
Proof. unfold fs_set. now rewrite String.eqb_refl. Qed.

Variable tool : list string -> fs -> fs * (exn + Z).
Variable os_path_splitext_root : string -> string.

(** Once the subtitle file is on disk the muxer is run, whatever it then
    does. *)
Lemma calls_add_sign_subtitles (input_file sign_sub_file : string) (w : World)
      (text : string) :
  files w sign_sub_file = Some text ->
  calls (fst (add_sign_subtitles tool input_file sign_sub_file w))
  = (calls w
     ++ [merge_command (input_file ++ ".temp.mkv") input_file sign_sub_file])%list.
Proof.
  intros Hf.
  unfold add_sign_subtitles, try_except, os_path_exists, subprocess_run,
    os_remove, os_replace, set_files.
  cbn. rewrite Hf. cbn.
  destruct (tool _ (files w)) as [f2 [e|rc]] eqn:Ht; cbn;
    [|destruct (rc =? 0); cbn];
    destruct (f2 _) eqn:E; cbn; rewrite ?E; cbn;
    repeat match goal with
           | |- context [if ?b then _ else _] =>
               destruct b; cbn; rewrite ?E; cbn
           end;
    reflexivity.
Qed.

Lemma calls_os_remove (path : string) (w : World) :
  calls (fst (os_remove path w)) = calls w.
Proof.
  unfold os_remove. destruct (files w path); [destruct (locked w path)|];
    reflexivity.
Qed.

Lemma extract_sign_subtitles_ok (input_file output_sub_file : string) (w : World)
      (f1 : fs) (text : string) :
  tool (extract_command input_file output_sub_file) (files w) = (f1, inr 0) ->
  f1 output_sub_file = Some text ->
  extract_sign_subtitles tool input_file output_sub_file w
  = ({| files := fs_set f1 output_sub_file
                   (Some (rebuild (scan_lines (readlines EmptyString text))));
        calls := (calls w ++ [extract_command input_file output_sub_file])%list;
        locked := locked w |},
     inr true).
Proof.
  intros Ht Hf.
  unfold extract_sign_subtitles, try_except, subprocess_run, read_lines,
    write_text, set_files.
  cbn. rewrite Ht. cbn. rewrite Hf. reflexivity.
Qed.

Lemma merge_performed_app (w : World) (cs : list (list string)) (c : list string) :
  is_merge c = true -> calls w = (cs ++ [c])%list -> merge_performed w = true.
Proof.
  intros Hc Hw. unfold merge_performed. rewrite Hw, existsb_app. cbn.
  rewrite Hc. now rewrite orb_true_r.
Qed.

(** The track is discarded without a merge only when the rewritten file is
    empty, that is when no header line is left either. *)
Lemma empty_file_discarded (latest_file : string) (w : World) (f1 : fs)
      (text : string) :
  let sign_sub_file := os_path_splitext_root latest_file ++ "_sign.ass" in
  tool (extract_command latest_file sign_sub_file) (files w) = (f1, inr 0) ->
  f1 sign_sub_file = Some text ->
  rebuild (scan_lines (readlines EmptyString text)) = EmptyString ->
  calls (fst (sign_subtitle_step tool os_path_splitext_root latest_file w))
  = (calls w ++ [extract_command latest_file sign_sub_file])%list.
Proof.
  intros sign_sub_file Ht Hf Hr.
  unfold sign_subtitle_step. fold sign_sub_file.
  rewrite bind_run, (extract_sign_subtitles_ok _ _ _ _ _ Ht Hf), Hr.
  set (w1 := {| files := _; calls := _; locked := _ |}).
  assert (files w1 sign_sub_file = Some EmptyString) as Hw1 by apply fs_set_same.
  rewrite bind_run. unfold os_path_getsize at 1. rewrite Hw1.
  cbn [utf8_size]. change (0 >? 0) with false. cbv iota.
  now rewrite calls_os_remove.
Qed.

(** C4 fails on the code: when the extracted track has a non-empty header
    and no dialogue line passes the filter, the rewritten file holds the
    header, its size is positive, and the subtitle step of [download_anime]
    runs the muxer on it. *)
Theorem empty_cue_set_still_merged (latest_file : string) (w : World) (f1 : fs)
        (text : string) :
  let sign_sub_file := os_path_splitext_root latest_file ++ "_sign.ass" in
  tool (extract_command latest_file sign_sub_file) (files w) = (f1, inr 0) ->
  f1 sign_sub_file = Some text ->
  sign_lines (scan_lines (readlines EmptyString text)) = [] ->
  join (String Enricher.newline EmptyString)
       (header (scan_lines (readlines EmptyString text))) <> EmptyString ->
  merge_performed
    (fst (sign_subtitle_step tool os_path_splitext_root latest_file w)) = true.
Proof.
  intros sign_sub_file Ht Hf Hs Hh.
  unfold sign_subtitle_step. fold sign_sub_file.
  rewrite bind_run, (extract_sign_subtitles_ok _ _ _ _ _ Ht Hf).
  set (w1 := {| files := _; calls := _; locked := _ |}).
  assert (files w1 sign_sub_file
          = Some (rebuild (scan_lines (readlines EmptyString text)))) as Hw1
      by apply fs_set_same.
  rewrite bind_run. unfold os_path_getsize at 1. rewrite Hw1.
  assert ((utf8_size (rebuild (scan_lines (readlines EmptyString text))) >? 0)
          = true) as ->.
  { apply Z.gtb_lt, utf8_size_pos. unfold rebuild. rewrite Hs.
    intros H. apply Hh. destruct (join _ _); [reflexivity | discriminate]. }
  rewrite bind_run.
  pose proof (calls_add_sign_subtitles latest_file sign_sub_file w1 _ Hw1) as Hc.
  destruct (add_sign_subtitles tool latest_file sign_sub_file w1) as [w3 [e|b]];
    cbn [fst] in Hc |- *.
  - eapply merge_performed_app; [|exact Hc]. reflexivity.
  - eapply merge_performed_app; [|rewrite calls_os_remove; exact Hc]. reflexivity.
Qed.

End SignSubsFacts.

Lemma empty_cue_set_still_merged_witness :
  SignSubs.sign_lines
    (SignSubs.scan_lines (SignSubs.readlines EmptyString Samples.plain_track)) = []
  /\ SignSubs.merge_performed
       (fst (SignSubs.sign_subtitle_step Samples.tools Samples.splitext_mkv
               "videos/show.mkv" Samples.disk)) = true.
Proof.
  split; [reflexivity|].
  apply (empty_cue_set_still_merged Samples.tools Samples.splitext_mkv
           "videos/show.mkv" Samples.disk
           (SignSubs.fs_set (SignSubs.files Samples.disk) "videos/show_sign.ass"
              (Some Samples.plain_track))
           Samples.plain_track).
  - reflexivity.
  - reflexivity.
  - reflexivity.
  - vm_compute. discriminate.
Defined.

(** ** The status channel *)

Section TelegramFacts.
Import PyStr Py Telegram.

Lemma py_div_nonzero (a b : Q) (w : World) :
  ~ (b == 0)%Q -> py_div a b w = (w, inr (a / b)%Q).
Proof.
  intros H. unfold py_div.
  destruct (Qeq_bool b 0) eqn:E; [|reflexivity].
  apply Qeq_bool_iff in E. contradiction.
Qed.

Lemma py_div_zero (a b : Q) (w : World) :
  (b == 0)%Q -> py_div a b w = (w, inl ZeroDivisionError).
Proof.
  intros H. unfold py_div. apply Qeq_bool_iff in H. rewrite H. reflexivity.
Qed.

Lemma inject_Z_nonzero (z : Z) : z <> 0 -> ~ (inject_Z z == 0)%Q.
Proof. intros H E. apply H. unfold Qeq in E. simpl in E. lia. Qed.

Lemma progress_figures_nonzero (current total : Z) (start_time current_time : Q)
      (w : World) :
  total <> 0 ->
  exists f,
    progress_figures current total start_time current_time w = (w, inr f)
    /\ elapsed_time f = (current_time - start_time)%Q
    /\ ((elapsed_time f <= 0)%Q -> speed f = 0%Q)
    /\ ((speed f <= 0)%Q -> eta f = 0%Q).
Proof.
  intros Ht. unfold progress_figures.
  set (el := (current_time - start_time)%Q).
  pose proof (inject_Z_nonzero _ Ht) as Hq.
  destruct (Qlt_le_dec 0 el) as [Hel|Hel].
  - rewrite bind_run, py_div_nonzero by (intros E; rewrite E in Hel; lra).
    set (sp := (inject_Z current / el)%Q).
    destruct (Qlt_le_dec 0 sp) as [Hsp|Hsp].
    + rewrite bind_run, py_div_nonzero by (intros E; rewrite E in Hsp; lra).
      rewrite bind_run, py_div_nonzero by exact Hq.
      rewrite bind_run, py_div_nonzero by exact Hq.
      eexists; split; [reflexivity|]. cbn. repeat split; intros; lra.
    + rewrite bind_run. cbn [ret Monad_M].
      rewrite bind_run, py_div_nonzero by exact Hq.
      rewrite bind_run, py_div_nonzero by exact Hq.
      eexists; split; [reflexivity|]. cbn.
      repeat split; intros; try reflexivity; lra.
  - rewrite bind_run. cbn [ret Monad_M].
    destruct (Qlt_le_dec 0 0) as [H0|H0]; [lra|].
    rewrite bind_run. cbn [ret Monad_M].
    rewrite bind_run, py_div_nonzero by exact Hq.
    rewrite bind_run, py_div_nonzero by exact Hq.
    eexists; split; [reflexivity|]. cbn. repeat split; intros; reflexivity.
Qed.

Lemma progress_figures_zero_total (current : Z) (start_time current_time : Q)
      (w : World) :
  progress_figures current 0 start_time current_time w = (w, inl ZeroDivisionError).
Proof.
  unfold progress_figures.
  set (el := (current_time - start_time)%Q).
  assert (forall a, py_div a (inject_Z 0) w = (w, inl ZeroDivisionError)) as Hz
      by (intros a; apply py_div_zero; reflexivity).
  destruct (Qlt_le_dec 0 el) as [Hel|Hel].
  - rewrite bind_run, py_div_nonzero by (intros E; rewrite E in Hel; lra).
    set (sp := (inject_Z current / el)%Q).
    destruct (Qlt_le_dec 0 sp) as [Hsp|Hsp].
    + rewrite bind_run, py_div_nonzero by (intros E; rewrite E in Hsp; lra).
      now rewrite bind_run, Hz.
    + rewrite bind_run. cbn [ret Monad_M]. now rewrite bind_run, Hz.
  - rewrite bind_run. cbn [ret Monad_M].
    destruct (Qlt_le_dec 0 0) as [H0|H0]; [lra|].
    rewrite bind_run. cbn [ret Monad_M]. now rewrite bind_run, Hz.
Qed.

Lemma progress_figures_world (current total : Z) (start_time current_time : Q)
      (w : World) :
  fst (progress_figures current total start_time current_time w) = w.
Proof.
  destruct (Z.eq_dec total 0) as [->|Ht].
  - now rewrite progress_figures_zero_total.
  - destruct (progress_figures_nonzero current total start_time current_time w Ht)
      as [f [-> _]].
    reflexivity.
Qed.

(** C8, as stated, fails: with a total of zero bytes the percentage is
    computed by an unguarded division, and the callback raises
    [ZeroDivisionError] once the gate is open. *)
Lemma progress_zero_total_counterexample :
  snd (progress_figures 0 0 0 1 (Samples.channel 0)) = inl ZeroDivisionError
  /\ snd (progress Samples.fmt_q Samples.fmt_z "#" "-" 0 0 Samples.status
            "show.mkv" 99 (Samples.channel 0))
     = inl ZeroDivisionError.
Proof. split; reflexivity. Qed.

(** C8 (amended): for every progress sample whose total is not zero the
    computation divides by no zero and returns its figures; the speed is 0
    when the elapsed time is not positive, and the ETA is 0 when the speed
    is 0 (or below). *)
Theorem progress_division_safe (current total : Z) (start_time current_time : Q)
        (w : World) :
  total <> 0 ->
  exists f,
    progress_figures current total start_time current_time w = (w, inr f)
    /\ ((current_time - start_time <= 0)%Q -> speed f = 0%Q)
    /\ ((speed f <= 0)%Q -> eta f = 0%Q).
Proof.
  intros Ht.
  destruct (progress_figures_nonzero current total start_time current_time w Ht)
    as [f [Hf [Hel [Hsp Heta]]]].
  exists f. rewrite Hel in Hsp. auto.
Qed.

Lemma progress_division_safe_witness :
  exists f,
    progress_figures 5 10 101 99 (Samples.channel 0) = (Samples.channel 0, inr f)
    /\ ((99 - 101 <= 0)%Q -> speed f = 0%Q)
    /\ ((speed f <= 0)%Q -> eta f = 0%Q).
Proof.
  apply (progress_division_safe 5 10 101 99 (Samples.channel 0)). lia.
Defined.

End TelegramFacts.

(** ** The notification adapter *)

Section AdapterFacts.
Import PyStr Py Telegram.

(** In [ki.py] (and [rc.py], [rot.py], [kot.py]) an identical text makes
    the adapter return at once: no edit goes out, the world is untouched. *)
Lemma ki_safe_edit_message_skips_identical (message : Message) (new_text : string)
      (w : World) :
  text message = new_text ->
  Ki.safe_edit_message message new_text w = (w, inr tt).
Proof.
  intros <-. unfold Ki.safe_edit_message, try_except_FloodWait.
  rewrite catch_run, String.eqb_refl. reflexivity.
Qed.

(** C9 fails in [bot.py]: its adapter sends the edit even when the text is
    the one the message already shows, and when the channel answers
    [MessageNotModified] the adapter lets it through to its caller. *)
Theorem bot_safe_edit_message_sends_identical (message : Message) (w : World) :
  (exists e rest,
      edits (fst (Bot.safe_edit_message message (text message) w))
      = (edits w ++ e :: rest)%list
      /\ sent_text e = text message)
  /\ (hd None (answers w) = Some MessageNotModified ->
      snd (Bot.safe_edit_message message (text message) w)
      = inl MessageNotModified).
Proof.
  unfold Bot.safe_edit_message, try_except_FloodWait, edit_text, asyncio_sleep.
  cbn.
  destruct (hd None (answers w)) as [x|] eqn:Hans.
  - destruct x; cbn; (split; [|intros [=]; reflexivity]);
      try (eexists; exists []; split; reflexivity).
    destruct (hd None (tl (answers w))); cbn;
      rewrite <- app_assoc; eexists; eexists; split; reflexivity.
  - cbn. split; [|discriminate]. eexists; exists []; split; reflexivity.
Qed.

Lemma bot_safe_edit_message_sends_identical_witness :
  snd (Bot.safe_edit_message Samples.status (text Samples.status)
         Samples.channel_unchanged)
  = inl MessageNotModified.
Proof.
  apply (proj2 (bot_safe_edit_message_sends_identical Samples.status
                  Samples.channel_unchanged)).
  reflexivity.
Defined.

End AdapterFacts.

(** ** The upload step and its size gate *)

Section UploadFacts.
Import PyStr Py Telegram.

Lemma keeps_ret {A} (a : A) : keeps (ret a).
Proof. intros w. split; reflexivity. Qed.

Lemma keeps_raise {A} (e : exn) : keeps (raise e : M World A).
Proof. intros w. split; reflexivity. Qed.

Lemma keeps_bind {A B} (c : M World A) (k : A -> M World B) :
  keeps c -> (forall a, keeps (k a)) -> keeps (bind c k).
Proof.
  intros Hc Hk w. rewrite bind_run. specialize (Hc w).
  destruct (c w) as [w' [e|a]]; cbn [fst] in *; [exact Hc|].
  destruct (Hk a w') as [Hd Hs]. rewrite Hd, Hs. exact Hc.
Qed.

Lemma keeps_catch {A} (c : M World A) (h : exn -> M World A) :
  keeps c -> (forall e, keeps (h e)) -> keeps (catch c h).
Proof.
  intros Hc Hh w. rewrite catch_run. specialize (Hc w).
  destruct (c w) as [w' [e|a]]; cbn [fst] in *; [|exact Hc].
  destruct (Hh e w') as [Hd Hs]. rewrite Hd, Hs. exact Hc.
Qed.

Lemma keeps_edit_text (message : Message) (new_text : string) :
  keeps (edit_text message new_text).
Proof. intros w. split; reflexivity. Qed.

Lemma keeps_asyncio_sleep (x : Z) : keeps (asyncio_sleep x).
Proof. intros w. split; reflexivity. Qed.

Lemma keeps_set_clock (t : Q) : keeps (set_clock t).
Proof. intros w. split; reflexivity. Qed.

Lemma keeps_set_last_update_time (t : Q) : keeps (set_last_update_time t).
Proof. intros w. split; reflexivity. Qed.

Lemma keeps_time_time : keeps time_time.
Proof. intros w. split; reflexivity. Qed.

Lemma keeps_get_last_update_time : keeps get_last_update_time.
Proof. intros w. split; reflexivity. Qed.

Lemma keeps_progress_figures (current total : Z) (start_time current_time : Q) :
  keeps (progress_figures current total start_time current_time).
Proof. intros w. rewrite progress_figures_world. split; reflexivity. Qed.

Lemma keeps_ki_safe_edit_message (message : Message) (new_text : string) :
  keeps (Ki.safe_edit_message message new_text).
Proof.
  unfold Ki.safe_edit_message, try_except_FloodWait.
  apply keeps_catch.
  - destruct (text message =? new_text)%string;
      [apply keeps_ret | apply keeps_edit_text].
  - intros e. destruct e; try apply keeps_raise.
    apply keeps_bind; [apply keeps_asyncio_sleep | intros; apply keeps_edit_text].
Qed.

Variable fmt_2f : Q -> string.
Variable fmt_int : Z -> string.
Variable fmt_exn : exn -> string.
Variable full_block empty_block : string.
Variable os_path_basename : string -> string.

Let progress := progress fmt_2f fmt_int full_block empty_block.
Let callbacks := callbacks fmt_2f fmt_int full_block empty_block.
Let transfer := transfer fmt_2f fmt_int full_block empty_block os_path_basename.
Let upload_step :=
  upload_step fmt_2f fmt_int fmt_exn full_block empty_block os_path_basename.

Lemma keeps_progress (current total : Z) (message : Message) (filename : string)
      (start_time : Q) :
  keeps (progress current total message filename start_time).
Proof.
  unfold progress, Telegram.progress, try_except_MessageNotModified.
  apply keeps_bind; [apply keeps_time_time | intros current_time].
  apply keeps_bind; [apply keeps_get_last_update_time | intros last].
  destruct (Qle_bool 2 (current_time - last)); [|apply keeps_ret].
  apply keeps_catch.
  - apply keeps_bind; [apply keeps_progress_figures | intros f].
    apply keeps_bind; [apply keeps_edit_text | intros _].
    apply keeps_set_last_update_time.
  - intros e. destruct e; first [apply keeps_raise | apply keeps_ret].
Qed.

Lemma keeps_callbacks (samples : list sample) (message : Message)
      (filename : string) (start_time : Q) :
  keeps (callbacks samples message filename start_time).
Proof.
  induction samples as [|x rest IH]; [apply keeps_ret|].
  cbn [callbacks Telegram.callbacks].
  apply keeps_bind; [apply keeps_set_clock | intros _].
  apply keeps_bind; [apply keeps_progress | intros _]. exact IH.
Qed.

(** A transfer hands the file to [send_document] and leaves the disk alone. *)
Lemma documents_transfer (document : string) (samples : list sample)
      (message : Message) (w : World) :
  documents (fst (transfer document samples message w))
  = (documents w ++ [document])%list
  /\ sizes (fst (transfer document samples message w)) = sizes w.
Proof.
  unfold transfer, Telegram.transfer, send_document, time_time, log_document.
  rewrite !bind_run. cbn [fst snd].
  match goal with
  | |- context [Telegram.callbacks _ _ _ _ ?s ?m ?f ?t ?w1] =>
      destruct (keeps_callbacks s m f t w1) as [Hd Hs]
  end.
  unfold callbacks in Hd, Hs. rewrite Hd, Hs. split; reflexivity.
Qed.

Lemma documents_os_remove (path : string) (w : World) :
  documents (fst (os_remove path w)) = documents w.
Proof. unfold os_remove. destruct (sizes w path); reflexivity. Qed.

Lemma documents_after {A B} (c : M World A) (k : A -> M World B) (w : World) :
  (forall a w', documents (fst (k a w')) = documents w') ->
  documents (fst (bind c k w)) = documents (fst (c w)).
Proof.
  intros Hk. rewrite bind_run.
  destruct (c w) as [w' [e|a]]; cbn [fst]; [reflexivity | apply Hk].
Qed.

(** C6: the gate lets exactly 2 * 1024^3 bytes through and stops one byte
    more; in the upload step, once the "uploading" notice has gone through,
    a file on disk is handed to [send_document] if and only if its size is
    at most 2 GiB, and a larger file is only answered with the limit
    message. *)
Theorem upload_size_gate (status_message : Message) (latest_file : string)
        (thumbnail_path : option string) (samples : list sample)
        (w w1 : World) (file_size : Z) :
  Ki.safe_edit_message status_message "Uploading to Telegram..." w = (w1, inr tt) ->
  sizes w latest_file = Some file_size ->
  let w' := fst (upload_step status_message latest_file thumbnail_path samples w) in
  ((2 * 1024 ^ 3 + 1 >? size_limit) = true)
  /\ ((2 * 1024 ^ 3 >? size_limit) = false)
  /\ (documents w' = (documents w ++ [latest_file])%list <-> file_size <= 2 * 1024 ^ 3)
  /\ (documents w' = documents w <-> 2 * 1024 ^ 3 < file_size).
Proof.
  intros Hnote Hsize w'.
  split; [reflexivity|]. split; [reflexivity|].
  assert (documents w1 = documents w /\ sizes w1 = sizes w) as [Hd1 Hs1].
  { pose proof (keeps_ki_safe_edit_message status_message
                  "Uploading to Telegram..." w) as H.
    rewrite Hnote in H. exact H. }
  assert (documents w'
          = if file_size >? size_limit then documents w
            else (documents w ++ [latest_file])%list) as Hw'.
  { unfold w', upload_step, Telegram.upload_step, try_except.
    rewrite catch_run.
    match goal with
    | |- documents (fst (match ?body w with _ => _ end)) = _ =>
        assert (documents (fst (body w))
                = if file_size >? size_limit then documents w
                  else (documents w ++ [latest_file])%list) as Hbody;
        [|destruct (body w) as [w2 [e|u]]; cbn [fst] in *;
          [|exact Hbody];
          rewrite (proj1 (keeps_ki_safe_edit_message _ _ w2)); exact Hbody]
    end.
    rewrite bind_run, Hnote, bind_run.
    unfold os_path_getsize at 1. rewrite Hs1, Hsize.
    destruct (file_size >? size_limit).
    - rewrite (proj1 (keeps_edit_text _ _ w1)). exact Hd1.
    - rewrite documents_after.
      + rewrite (proj1 (documents_transfer _ _ _ w1)), Hd1. reflexivity.
      + intros _ w2. rewrite documents_after.
        * apply keeps_ki_safe_edit_message.
        * intros _ w3. rewrite documents_after; [apply documents_os_remove|].
          intros _ w4. destruct thumbnail_path as [p|]; [|reflexivity].
          rewrite bind_run.
          destruct (truthy p); cbn.
          -- destruct (sizes w4 p) eqn:E; cbn; [|reflexivity].
             unfold os_remove. rewrite E. reflexivity.
          -- reflexivity. }
  rewrite Hw'. unfold size_limit.
  destruct (Z.gtb_spec file_size (2 * 1024 ^ 3)) as [Hgt|Hle]; split; split;
    intros H; try lia; try reflexivity.
  - exfalso. apply (f_equal (@List.length string)) in H.
    rewrite length_app in H. cbn in H. lia.
  - exfalso. apply (f_equal (@List.length string)) in H.
    rewrite length_app in H. cbn in H. lia.
Qed.

End UploadFacts.

Lemma upload_size_gate_witness :
  Telegram.documents
    (fst (Telegram.upload_step Samples.fmt_q Samples.fmt_z Samples.fmt_e "#" "-"
            Samples.base Samples.status "videos/show.mkv" None [Samples.later]
            (Samples.channel 0)))
  = ["videos/show.mkv"]
  /\ Telegram.documents
       (fst (Telegram.upload_step Samples.fmt_q Samples.fmt_z Samples.fmt_e "#" "-"
               Samples.base Samples.status "videos/big.mkv" None [Samples.later]
               (Samples.channel 0)))
     = [].
Proof.
  split.
  - apply (proj1 (proj2 (proj2 (upload_size_gate
             Samples.fmt_q Samples.fmt_z Samples.fmt_e "#" "-" Samples.base
             Samples.status "videos/show.mkv" None [Samples.later]
             (Samples.channel 0) _ (2 * 1024 ^ 3) eq_refl eq_refl)))).
    vm_compute. discriminate.
  - apply (proj2 (proj2 (proj2 (upload_size_gate
             Samples.fmt_q Samples.fmt_z Samples.fmt_e "#" "-" Samples.base
             Samples.status "videos/big.mkv" None [Samples.later]
             (Samples.channel 0) _ (2 * 1024 ^ 3 + 1) eq_refl eq_refl)))).
    vm_compute. reflexivity.
Defined.

(** ** The progress gate *)

Section GateFacts.
Import PyStr Py Telegram Transfers.

Variable fmt_2f : Q -> string.
Variable fmt_int : Z -> string.
Variable full_block empty_block : string.
Variable os_path_basename : string -> string.

Let progress := progress fmt_2f fmt_int full_block empty_block.
Let callbacks := callbacks fmt_2f fmt_int full_block empty_block.
Let transfer := transfer fmt_2f fmt_int full_block empty_block os_path_basename.

Lemma progress_cases (current total : Z) (message : Message) (filename : string)
      (start_time : Q) (w : World) :
  progress_outcome w (fst (progress current total message filename start_time w)).
Proof.
  unfold progress, Telegram.progress, time_time, get_last_update_time.
  rewrite !bind_run.
  destruct (Qle_bool 2 (clock w - last_update_time w)) eqn:Hgate;
    [|now apply Silent].
  apply Qle_bool_iff in Hgate.
  unfold try_except_MessageNotModified. rewrite catch_run, bind_run.
  pose proof (progress_figures_world current total start_time (clock w) w) as Hw.
  destruct (progress_figures current total start_time (clock w) w) as [w1 [e|f]];
    cbn [fst] in Hw; subst w1.
  - destruct e; now apply Silent.
  - rewrite bind_run. unfold edit_text.
    destruct (hd None (answers w)) as [x|] eqn:Hans.
    + destruct x; cbn; eapply Rejected; reflexivity.
    + cbn. eapply Emitted; try reflexivity. exact Hgate.
Qed.

Lemma spaced_snoc (es : list edit) (e : edit) :
  spaced es -> Forall (fun e' => apart e' e) es -> spaced (es ++ [e]).
Proof.
  unfold spaced. intros Hs Ha.
  induction Hs as [|x l Hx Hl IH]; cbn.
  - constructor; [constructor | constructor].
  - inversion Ha as [|? ? Hxe Hle]; subst.
    constructor; [|now apply IH].
    apply Forall_app. split; [exact Hx | now constructor].
Qed.

Lemma gated_progress (new : list edit) (w w' : World) :
  gated new w -> progress_outcome w w' ->
  exists more, edits w' = (edits w ++ more)%list /\ gated (new ++ more) w'.
Proof.
  intros [Hs Hb] [He Hl | e He Ht Ha Hg Hl | e He Ha Hl].
  - exists []. rewrite !app_nil_r, He. split; [reflexivity|].
    split; [exact Hs|]. now rewrite Hl.
  - exists [e]. split; [exact He|].
    unfold gated. rewrite filter_app. cbn [filter]. rewrite Ha.
    split.
    + apply spaced_snoc; [exact Hs|].
      eapply Forall_impl; [|exact Hb].
      intros e' He'. unfold apart. rewrite Ht. cbv beta in He'. lra.
    + apply Forall_app. split.
      * eapply Forall_impl; [|exact Hb].
        intros e' He'. cbv beta in He' |- *. rewrite Hl. lra.
      * constructor; [|constructor]. rewrite Hl, Ht. lra.
  - exists [e]. split; [exact He|].
    unfold gated. rewrite filter_app. cbn [filter]. rewrite Ha, app_nil_r.
    split; [exact Hs|]. now rewrite Hl.
Qed.

Lemma gated_callbacks (samples : list sample) (message : Message)
      (filename : string) (start_time : Q) (new : list edit) (w : World) :
  gated new w ->
  exists more,
    edits (fst (callbacks samples message filename start_time w))
    = (edits w ++ more)%list
    /\ gated (new ++ more) (fst (callbacks samples message filename start_time w)).
Proof.
  revert new w. induction samples as [|x rest IH]; intros new w Hg.
  - exists []. cbn. rewrite !app_nil_r. split; [reflexivity | exact Hg].
  - cbn [callbacks Telegram.callbacks]. rewrite bind_run.
    cbn [set_clock]. set (w1 := {| clock := now x |}).
    assert (gated new w1) as Hg1 by exact Hg.
    rewrite bind_run. fold progress.
    destruct (gated_progress new w1 _ Hg1
                (progress_cases (sent x) (size x) message filename start_time w1))
      as [more [He Hg2]].
    destruct (progress (sent x) (size x) message filename start_time w1)
      as [w2 [e|u]]; cbn [fst] in He, Hg2 |- *.
    + exists more. split; [exact He | exact Hg2].
    + destruct (IH _ w2 Hg2) as [more' [He' Hg3]].
      exists (more ++ more')%list. fold callbacks. rewrite He', He.
      change (edits w1) with (edits w). rewrite !app_assoc in *.
      split; [reflexivity | exact Hg3].
Qed.

Lemma transfer_first_sample (document : string) (x : sample) (message : Message)
      (w : World) :
  let w1 := {| clock := now x; last_update_time := last_update_time w;
               answers := answers w; edits := edits w; sleeps := sleeps w;
               sizes := sizes w;
               documents := (documents w ++ [document])%list |} in
  fst (transfer document [x] message w)
  = fst (progress (sent x) (size x) message (os_path_basename document)
           (clock w) w1).
Proof.
  intros w1.
  unfold transfer, Telegram.transfer, send_document, time_time, log_document.
  rewrite !bind_run. cbn [fst snd callbacks Telegram.callbacks].
  rewrite !bind_run. unfold set_clock.
  cbn [fst snd clock last_update_time answers edits sleeps sizes documents].
  fold progress. fold w1. rewrite bind_run.
  destruct (progress _ _ _ _ _ w1) as [w2 [e|u]]; reflexivity.
Qed.

Let progress_to_await :=
  Transfers.progress_to_await fmt_2f fmt_int full_block empty_block.
Let step := Transfers.step fmt_2f fmt_int full_block empty_block.
Let run := Transfers.run fmt_2f fmt_int full_block empty_block.
Let exclusive := Transfers.exclusive fmt_2f fmt_int full_block empty_block.

(** The callback is its two halves run back to back. *)
Lemma progress_split (current total : Z) (message : Message) (filename : string)
      (start_time : Q) (w : World) :
  progress current total message filename start_time w
  = (a <- progress_to_await current total message filename start_time ;;
     match a with
     | Some a => Transfers.progress_from_await a
     | None => ret tt
     end)%monad w.
Proof.
  unfold progress, Telegram.progress, progress_to_await,
    Transfers.progress_to_await, time_time, get_last_update_time.
  rewrite !bind_run.
  destruct (Qle_bool 2 (clock w - last_update_time w)); [|reflexivity].
  unfold try_except_MessageNotModified. rewrite !catch_run, !bind_run.
  destruct (progress_figures current total start_time (clock w) w)
    as [w1 [e|f]].
  - destruct e; reflexivity.
  - rewrite bind_run. unfold Transfers.progress_from_await, edit_text.
    destruct (hd None (answers w1)) as [x|]; [destruct x|]; reflexivity.
Qed.









(** The callbacks of one transfer run alone are a schedule that keeps the
    transfers apart: every call is followed at once by its resumption. *)
Lemma callbacks_exclusive (uploads : list upload) (i : nat) (u : upload)
      (samples : list sample) (s : state) :
  nth_error uploads i = Some u ->
  suspended s = [] ->
  existsb (Nat.eqb i) (ended s) = false ->
  exists es s',
    exclusive uploads s es = true
    /\ run uploads s es = Some s'
    /\ suspended s' = []
    /\ world s'
       = fst (callbacks samples (status_message u) (file_name u) (started_at u)
                (world s)).
Proof.
  intros Hu. revert s. induction samples as [|x rest IH]; intros s Hsusp Hlive.
  - exists [], s. repeat split. exact Hsusp.
  - cbn [callbacks Telegram.callbacks]. rewrite bind_run. cbn [set_clock].
    set (w1 := {| clock := now x |}).
    rewrite bind_run. fold progress. fold callbacks.
    rewrite progress_split, bind_run.
    assert (step uploads s (Call i x)
            = Some
                match snd (progress_to_await (sent x) (size x) (status_message u)
                             (file_name u) (started_at u) w1) with
                | inr (Some a) =>
                    {| world := fst (progress_to_await (sent x) (size x)
                                       (status_message u) (file_name u)
                                       (started_at u) w1);
                       suspended := [(i, a)]; ended := ended s |}
                | inr None =>
                    {| world := fst (progress_to_await (sent x) (size x)
                                       (status_message u) (file_name u)
                                       (started_at u) w1);
                       suspended := []; ended := ended s |}
                | inl _ =>
                    {| world := fst (progress_to_await (sent x) (size x)
                                       (status_message u) (file_name u)
                                       (started_at u) w1);
                       suspended := []; ended := i :: ended s |}
                end) as Hcall.
    { unfold step, Transfers.step. rewrite Hu, Hsusp. cbn [lookup].
      rewrite Hlive, bind_run. cbn [set_clock]. fold w1.
      fold progress_to_await.
      destruct (progress_to_await _ _ _ _ _ w1) as [w2 [e|[a|]]]; reflexivity. }
    destruct (progress_to_await (sent x) (size x) (status_message u)
                (file_name u) (started_at u) w1) as [w2 [e|[a|]]];
      cbn [fst snd] in Hcall |- *.
    + exists [Call i x]. eexists.
      cbn [exclusive Transfers.exclusive run Transfers.run].
      fold step. rewrite Hsusp, Hcall. repeat split.
    + assert (step uploads
                {| world := w2; suspended := [(i, a)]; ended := ended s |}
                (Resume i)
              = Some {| world := fst (progress_from_await a w2);
                        suspended := [];
                        ended := match snd (progress_from_await a w2) with
                                 | inl _ => i :: ended s
                                 | inr _ => ended s
                                 end |}) as Hres.
      { unfold step, Transfers.step, drop. cbn [suspended lookup filter fst world].
        rewrite Nat.eqb_refl. reflexivity. }
      destruct (progress_from_await a w2) as [w3 [e|[]]] eqn:Hfrom;
        cbn [fst snd] in Hres |- *.
      * exists [Call i x; Resume i]. eexists.
        cbn [exclusive Transfers.exclusive run Transfers.run].
        fold step. rewrite Hsusp, Hcall. cbn [suspended]. rewrite Hres.
        repeat split.
      * destruct (IH {| world := w3; suspended := []; ended := ended s |}
                     eq_refl Hlive) as [es [s' [Hex [Hrun [Hs' Hw']]]]].
        exists (Call i x :: Resume i :: es), s'.
        cbn [exclusive Transfers.exclusive run Transfers.run].
        fold step. fold exclusive. fold run.
        rewrite Hsusp, Hcall. cbn [suspended]. rewrite Hres.
        repeat split; assumption.
    + destruct (IH {| world := w2; suspended := []; ended := ended s |}
                   eq_refl Hlive) as [es [s' [Hex [Hrun [Hs' Hw']]]]].
      exists (Call i x :: es), s'.
      cbn [exclusive Transfers.exclusive run Transfers.run].
      fold step. fold exclusive. fold run.
      rewrite Hsusp, Hcall. repeat split; assumption.
Qed.



End GateFacts.


(** ** The task queue *)

Section QueueFacts.
Import Queue.
Local Open Scope list_scope.
Local Open Scope nat_scope.

Lemma nth_error_returned (l : list drain) (i : nat) (d : drain) :
  Forall (eq Returned) l -> nth_error l i = Some d -> d = Returned.
Proof.
  intros Hl Hn. apply nth_error_In in Hn.
  rewrite Forall_forall in Hl. symmetry. now apply Hl.
Qed.

Lemma nth_error_live (before after : list drain) (d d' : drain) (i : nat) :
  Forall (eq Returned) before -> Forall (eq Returned) after ->
  nth_error (before ++ d :: after) i = Some d' -> d' <> Returned ->
  i = length before /\ d' = d.
Proof.
  intros Hb Ha Hn Hd.
  destruct (Nat.lt_trichotomy i (length before)) as [Hlt | [-> | Hgt]].
  - rewrite nth_error_app1 in Hn by exact Hlt.
    now apply (nth_error_returned _ _ _ Hb) in Hn.
  - rewrite nth_error_app2, Nat.sub_diag in Hn by lia. cbn in Hn.
    split; [reflexivity | congruence].
  - rewrite nth_error_app2 in Hn by lia.
    destruct (i - length before) as [|k] eqn:E; [lia|]. cbn in Hn.
    now apply (nth_error_returned _ _ _ Ha) in Hn.
Qed.

Lemma set_nth_middle (before after : list drain) (d x : drain) :
  set_nth (length before) x (before ++ d :: after) = before ++ x :: after.
Proof. induction before as [|b before IH]; cbn; [reflexivity | now rewrite IH]. Qed.

Lemma running_of_returned (l : list drain) :
  Forall (eq Returned) l -> running_of l = [].
Proof. induction 1 as [|d l <- _ IH]; [reflexivity | exact IH]. Qed.

Lemma running_of_app (l1 l2 : list drain) :
  running_of (l1 ++ l2) = running_of l1 ++ running_of l2.
Proof.
  induction l1 as [|d l1 IH]; [reflexivity|].
  destruct d; cbn; now rewrite IH.
Qed.

Lemma live_returned (l : list drain) :
  Forall (eq Returned) l ->
  filter (fun d => match d with Returned => false | _ => true end) l = [].
Proof. induction 1 as [|d l <- _ IH]; [reflexivity | exact IH]. Qed.

Lemma existsb_scheduled_middle (before after : list drain) :
  existsb is_scheduled (before ++ Scheduled :: after) = true.
Proof. rewrite existsb_app. cbn. apply orb_true_r. Qed.

(** One step of a prompt schedule keeps the state in one of the three
    shapes and adds the submitted task, if any, to the tasks to account
    for. *)
Lemma shape_step (s s' : state) (subs : list task) (e : event) :
  shape s subs ->
  prompt s [e] = true ->
  step s e = Some s' ->
  shape s' (subs ++ submitted [e]).
Proof.
  intros Hshape Hprompt Hstep.
  destruct e as [t | i | i]; cbn in Hstep, Hprompt.
  - (* Submit *)
    injection Hstep as <-. unfold submit. cbn [submitted].
    destruct Hshape as [Hq Hc Hd Hdone | before after Hc Hd Hb Ha Hdone
                       | t0 before after Hc Hd Hb Ha Hdone].
    + rewrite Hc, Hq. eapply Pending with (after := []); cbn; eauto.
      now rewrite Hdone.
    + rewrite Hd, existsb_scheduled_middle in Hprompt. discriminate.
    + rewrite Hc. eapply Busy; cbn; eauto.
      rewrite <- Hdone, <- app_assoc. reflexivity.
  - (* Start *)
    rewrite app_nil_r.
    destruct (nth_error (drains s) i) as [[| |]|] eqn:Hn; try discriminate.
    injection Hstep as <-. unfold loop_head.
    destruct Hshape as [Hq Hc Hd Hdone | before after Hc Hd Hb Ha Hdone
                       | t0 before after Hc Hd Hb Ha Hdone].
    + apply (nth_error_returned _ _ _ Hd) in Hn. discriminate.
    + rewrite Hd in Hn.
      destruct (nth_error_live _ _ _ _ _ Hb Ha Hn) as [-> _]; [discriminate|].
      destruct (task_queue s) as [|t q].
      * apply Idle; cbn; rewrite ?Hd, ?set_nth_middle; auto.
        -- apply Forall_app; split; [exact Hb | now constructor].
        -- now rewrite app_nil_r in Hdone.
      * apply Busy with (t := t) (before := before) (after := after); cbn;
          rewrite ?Hd, ?set_nth_middle; auto.
    + rewrite Hd in Hn.
      destruct (nth_error_live _ _ _ _ _ Hb Ha Hn) as [_ [=]]. discriminate.
  - (* Finish *)
    rewrite app_nil_r.
    destruct (nth_error (drains s) i) as [[|t|]|] eqn:Hn; try discriminate.
    injection Hstep as <-. unfold task_ends, loop_head. cbn.
    destruct Hshape as [Hq Hc Hd Hdone | before after Hc Hd Hb Ha Hdone
                       | t0 before after Hc Hd Hb Ha Hdone].
    + apply (nth_error_returned _ _ _ Hd) in Hn. discriminate.
    + rewrite Hd in Hn.
      destruct (nth_error_live _ _ _ _ _ Hb Ha Hn) as [_ [=]]. discriminate.
    + rewrite Hd in Hn.
      destruct (nth_error_live _ _ _ _ _ Hb Ha Hn) as [-> [= ->]]; [discriminate|].
      destruct (task_queue s) as [|t' q].
      * apply Idle; cbn; rewrite ?Hd, ?set_nth_middle; auto.
        apply Forall_app; split; [exact Hb | now constructor].
      * apply Busy with (t := t') (before := before) (after := after); cbn;
          rewrite ?Hd, ?set_nth_middle; auto.
        rewrite <- Hdone, <- app_assoc. reflexivity.
Qed.

Lemma submitted_cons (e : event) (es : list event) :
  submitted (e :: es) = submitted [e] ++ submitted es.
Proof. destruct e; reflexivity. Qed.

Lemma shape_run (es : list event) (s s' : state) (subs : list task) :
  shape s subs ->
  prompt s es = true ->
  run s es = Some s' ->
  shape s' (subs ++ submitted es).
Proof.
  revert s subs. induction es as [|e es IH]; intros s subs Hshape Hp Hrun.
  - cbn in Hrun. injection Hrun as <-. now rewrite app_nil_r.
  - cbn [run] in Hrun. cbn [prompt] in Hp.
    destruct (step s e) as [s1|] eqn:Hstep; [|discriminate].
    apply andb_true_iff in Hp as [Hp1 Hp2].
    rewrite submitted_cons, app_assoc.
    apply (IH s1); [|exact Hp2 | exact Hrun].
    apply (shape_step s); [exact Hshape | | exact Hstep].
    cbn [prompt]. rewrite Hp1, Hstep. reflexivity.
Qed.

(** Under prompt schedules the queue is single-flight: at most one task is
    running, at most one drain loop is alive, and the tasks complete in
    the order they were submitted. *)
Lemma single_flight_when_prompt (es : list event) (s : state) :
  prompt init es = true ->
  run init es = Some s ->
  length (running s) <= 1
  /\ live_drains s <= 1
  /\ exists rest, submitted es = completed s ++ rest.
Proof.
  intros Hp Hrun.
  assert (shape init []) as H0 by (apply Idle; auto).
  pose proof (shape_run es init s [] H0 Hp Hrun) as Hs. cbn [app] in Hs.
  unfold running, live_drains.
  destruct Hs as [Hq Hc Hd Hdone | before after Hc Hd Hb Ha Hdone
                 | t0 before after Hc Hd Hb Ha Hdone].
  - rewrite (running_of_returned _ Hd), (live_returned _ Hd).
    cbn. repeat split; try lia. exists []. now rewrite app_nil_r.
  - rewrite Hd, running_of_app, filter_app. cbn.
    rewrite (running_of_returned _ Hb), (running_of_returned _ Ha),
      (live_returned _ Hb), (live_returned _ Ha).
    cbn. repeat split; try lia. eauto.
  - rewrite Hd, running_of_app, filter_app. cbn.
    rewrite (running_of_returned _ Hb), (running_of_returned _ Ha),
      (live_returned _ Hb), (live_returned _ Ha).
    cbn. repeat split; try lia. eauto.
Qed.

(** C1 fails on the code: [asyncio.create_task] only schedules the drain
    coroutine, and [current_task] stays [None] until that coroutine runs.
    Two submissions handled before it runs create two drains; both pop a
    task and await it, so two tasks are running at once, and the second
    can complete before the first. *)
Theorem two_submissions_two_drains :
  (exists s,
      run init [Submit 1; Submit 2; Start 0; Start 1] = Some s
      /\ running s = [1; 2]
      /\ live_drains s = 2)
  /\ (exists s,
         run init [Submit 1; Submit 2; Start 0; Start 1; Finish 1; Finish 0]
         = Some s
         /\ completed s = [2; 1]
         /\ submitted [Submit 1; Submit 2; Start 0; Start 1; Finish 1; Finish 0]
            = [1; 2]).
Proof. split; eexists; repeat split; reflexivity. Qed.

End QueueFacts.

(** * Further properties of the scripts *)

(** ** Title shortening: bound, separators, idempotence *)

Section ShortenMore.
Import PyStr Shorten.

Lemma forallb_lstrip (p : ascii -> bool) (s : string) :
  forallb_str p s = true -> forallb_str p (lstrip s) = true.
Proof.
  induction s as [|c s IH]; cbn [lstrip]; intros H; [exact H|].
  destruct (is_space c); [|exact H].
  cbn [forallb_str] in H. apply andb_true_iff in H as [_ H]. now apply IH.
Qed.

Lemma forallb_rstrip (p : ascii -> bool) (s : string) :
  forallb_str p s = true -> forallb_str p (rstrip s) = true.
Proof.
  induction s as [|c s IH]; cbn [rstrip forallb_str]; intros H; [exact H|].
  apply andb_true_iff in H as [Hc Hs]. specialize (IH Hs).
  destruct (rstrip s) as [|d r].
  - destruct (is_space c); cbn [forallb_str]; [reflexivity | now rewrite Hc].
  - cbn [forallb_str] in *. now rewrite Hc, IH.
Qed.

Lemma forallb_strip (p : ascii -> bool) (s : string) :
  forallb_str p s = true -> forallb_str p (strip s) = true.
Proof. intros H. unfold strip. now apply forallb_rstrip, forallb_lstrip. Qed.

Lemma forallb_take (p : ascii -> bool) (n : nat) (s : string) :
  forallb_str p s = true -> forallb_str p (take n s) = true.
Proof.
  revert s. induction n as [|n IH]; intros [|c s] H; cbn [take forallb_str] in *;
    try reflexivity.
  apply andb_true_iff in H as [Hc Hs]. now rewrite Hc, IH.
Qed.

Lemma forallb_app_str (p : ascii -> bool) (s t : string) :
  forallb_str p (s ++ t) = forallb_str p s && forallb_str p t.
Proof.
  induction s as [|c s IH]; cbn [append forallb_str]; [reflexivity|].
  now rewrite IH, andb_assoc.
Qed.

Lemma first_field_clean (sep : ascii -> bool) (s : string) :
  forallb_str (fun c => negb (sep c)) (hd EmptyString (re_split_class sep s)) = true.
Proof.
  induction s as [|c s IH]; cbn [re_split_class]; [reflexivity|].
  destruct (sep c) eqn:Hc; [reflexivity|].
  destruct (re_split_class sep s) as [|p ps]; cbn [hd forallb_str] in *;
    rewrite Hc; [reflexivity | exact IH].
Qed.

Lemma slice_to_length (s : string) (k : Z) :
  0 <= k -> len (slice_to s k) = Z.min k (len s).
Proof.
  intros Hk. unfold slice_to, len.
  destruct (Z.leb_spec 0 k); [|lia].
  rewrite length_take. lia.
Qed.

Lemma truncated_length (s : string) (max_length : Z) :
  3 <= max_length -> len (slice_to s (max_length - 3) ++ "...") <= max_length.
Proof.
  intros H3. unfold len at 1. rewrite length_app_str, Nat2Z.inj_add.
  fold (len (slice_to s (max_length - 3))).
  rewrite slice_to_length by lia. cbn [String.length]. lia.
Qed.

(** [shorten_anime_name] keeps its promise for every title: with a bound of
    at least 3 the result is never longer than the bound. *)
Theorem shorten_anime_name_bounded (name : string) (max_length : Z) :
  3 <= max_length ->
  len (shorten_anime_name name max_length) <= max_length.
Proof.
  intros H3. unfold shorten_anime_name.
  destruct (Z.leb_spec (len name) max_length) as [Hle|Hgt]; [exact Hle|].
  cbv zeta.
  destruct (Z.gtb_spec (len (strip (hd EmptyString (re_split_class is_title_sep name))))
                       max_length) as [Hlong|Hshort]; [|exact Hshort].
  now apply truncated_length.
Qed.

Lemma shorten_anime_name_bounded_witness :
  len (shorten_anime_name "Attack on Titan: Final Season" 10) <= 10.
Proof. apply shorten_anime_name_bounded. lia. Defined.

(** A title over the bound comes back without any colon or pipe: only the
    part before the first separator is kept. *)
Theorem shorten_anime_name_drops_separators (name : string) (max_length : Z) :
  0 <= max_length ->
  max_length < len name ->
  single_segment (shorten_anime_name name max_length) = true.
Proof.
  intros H0 Hgt. unfold shorten_anime_name, single_segment.
  destruct (Z.leb_spec (len name) max_length) as [Hle|_]; [lia|].
  cbv zeta.
  pose proof (forallb_strip _ _ (first_field_clean is_title_sep name)) as Hclean.
  destruct (_ >? max_length); [|exact Hclean].
  rewrite forallb_app_str. apply andb_true_iff. split; [|reflexivity].
  unfold slice_to. destruct (0 <=? max_length - 3); now apply forallb_take.
Qed.

Lemma shorten_anime_name_drops_separators_witness :
  single_segment (shorten_anime_name "Re:Zero | Starting Life in Another World" 25)
  = true.
Proof. apply shorten_anime_name_drops_separators; [lia | vm_compute; reflexivity]. Defined.

(** Shortening twice is shortening once. *)
Theorem shorten_anime_name_idempotent (name : string) (max_length : Z) :
  3 <= max_length ->
  shorten_anime_name (shorten_anime_name name max_length) max_length
  = shorten_anime_name name max_length.
Proof.
  intros H3. apply shorten_short. unfold shorten_anime_name.
  destruct (Z.leb_spec (len name) max_length) as [Hle|Hgt]; [exact Hle|].
  cbv zeta.
  destruct (Z.gtb_spec (len (strip (hd EmptyString (re_split_class is_title_sep name))))
                       max_length) as [Hlong|Hshort]; [|exact Hshort].
  now apply truncated_length.
Qed.

Lemma shorten_anime_name_idempotent_witness :
  shorten_anime_name
    (shorten_anime_name "Fullmetal Alchemist Brotherhood Specials" 25) 25
  = shorten_anime_name "Fullmetal Alchemist Brotherhood Specials" 25.
Proof. apply shorten_anime_name_idempotent. lia. Defined.

Lemma shorten_le_25 (name : string) : len (shorten_anime_name name 25) <= 25.
Proof.
  unfold shorten_anime_name.
  destruct (Z.leb_spec (len name) 25) as [Hle|Hgt]; [exact Hle|].
  cbv zeta.
  destruct (Z.gtb_spec (len (strip (hd EmptyString (re_split_class is_title_sep name))))
                       25) as [Hlong|Hshort]; [|exact Hshort].
  apply truncated_length. lia.
Qed.

Lemma endswith_app_r (s t p : string) :
  endswith t p = true -> endswith (s ++ t) p = true.
Proof.
  intros H. induction s as [|c s IH]; [exact H|].
  change (String c s ++ t) with (String c (s ++ t)).
  cbn [endswith]. rewrite IH. apply orb_true_r.
Qed.

End ShortenMore.

(** ** Reasoning about what a computation returns *)

Section EnsuresFacts.
Import Py PySpec.
Context {W : Type}.

Lemma ensures_ret {A} (a : A) (P : A -> Prop) : P a -> ensures (ret a : M W A) P.
Proof. intros H w. exact H. Qed.

Lemma ensures_raise {A} (e : exn) (P : A -> Prop) : ensures (raise e : M W A) P.
Proof. intros w. exact I. Qed.

Lemma ensures_bind {A B} (c : M W A) (k : A -> M W B) (Q : B -> Prop) :
  (forall a, ensures (k a) Q) -> ensures (bind c k) Q.
Proof.
  intros Hk w. rewrite bind_run.
  destruct (c w) as [w' [e|a]]; [exact I | apply Hk].
Qed.

Lemma ensures_catch {A} (c : M W A) (h : exn -> M W A) (P : A -> Prop) :
  ensures c P -> (forall e, ensures (h e) P) -> ensures (catch c h) P.
Proof.
  intros Hc Hh w. rewrite catch_run. specialize (Hc w).
  destruct (c w) as [w' [e|a]]; [apply Hh | exact Hc].
Qed.

Lemma never_raises_catch {A} (c : M W A) (h : exn -> M W A) :
  (forall e, never_raises (h e)) -> never_raises (catch c h).
Proof.
  intros Hh w. rewrite catch_run.
  destruct (c w) as [w' [e|a]]; [apply Hh | eauto].
Qed.

Lemma never_raises_ret {A} (a : A) : never_raises (ret a : M W A).
Proof. intros w. cbn. eauto. Qed.

End EnsuresFacts.

(** ** Metadata enricher: what it hands back *)

Section EnricherMore.
Import PyStr Py PySpec Enricher.

Lemma length_repeat_char (c : ascii) (n : nat) :
  String.length (repeat_char c n) = n.
Proof. induction n as [|n IH]; cbn; [reflexivity | now rewrite IH]. Qed.

Lemma length_zfill (s : string) (width : nat) :
  String.length (zfill s width) = Nat.max (String.length s) width.
Proof.
  unfold zfill. destruct s as [|c s].
  - rewrite length_repeat_char. cbn. lia.
  - destruct (Ascii.eqb c "+" || Ascii.eqb c "-");
      cbn [String.length]; rewrite length_app_str, length_repeat_char;
      cbn [String.length]; lia.
Qed.

Lemma lstrip_head (s : string) :
  lstrip s = EmptyString
  \/ exists c r, lstrip s = String c r /\ is_space c = false.
Proof.
  induction s as [|c s IH]; cbn [lstrip]; [now left|].
  destruct (is_space c) eqn:Hc; [exact IH | right; eauto].
Qed.

Lemma rstrip_cons (c : ascii) (s : string) :
  is_space c = false -> rstrip (String c s) = String c (rstrip s).
Proof. intros Hc. cbn [rstrip]. rewrite Hc. now destruct (rstrip s). Qed.

Lemma rstrip_idempotent (s : string) : rstrip (rstrip s) = rstrip s.
Proof.
  induction s as [|c s IH]; [reflexivity|].
  cbn [rstrip]. destruct (rstrip s) as [|d r] eqn:Hr.
  - destruct (is_space c) eqn:Hc; [reflexivity|].
    cbn [rstrip]. now rewrite Hc.
  - cbn [rstrip]. cbn [rstrip] in IH. rewrite IH. reflexivity.
Qed.

Lemma strip_idempotent (s : string) : strip (strip s) = strip s.
Proof.
  unfold strip. destruct (lstrip_head s) as [-> | [c [r [-> Hc]]]]; [reflexivity|].
  rewrite (rstrip_cons _ _ Hc). cbn [lstrip]. rewrite Hc.
  rewrite <- (rstrip_cons _ _ Hc). apply rstrip_idempotent.
Qed.

Lemma re_sub_special_chars (s : string) :
  forallb_str EnricherSpec.title_char (re_sub_special s) = true.
Proof.
  induction s as [|c s IH]; cbn [re_sub_special forallb_str]; [reflexivity|].
  rewrite IH, andb_true_r. unfold EnricherSpec.title_char.
  destruct (is_alnum_ascii c || is_space c) eqn:E; [exact E | reflexivity].
Qed.

Variable W : Type.
Variable anitopy_parse : string -> M W (option dict).
Variable requests_post : string -> M W response.
Variable requests_get : json -> M W response.
Variable os_rename : string -> string -> M W unit.
Variable write_file : string -> string -> M W unit.
Variable time_sleep : Z -> M W unit.
Variable os_path_basename os_path_dirname os_path_splitext_root : string -> string.
Variable os_path_join : string -> string -> string.

Let extract := extract_anime_info W anitopy_parse.
Let rename :=
  auto_rename_with_anitopy W anitopy_parse requests_post requests_get os_rename
    write_file time_sleep os_path_basename os_path_dirname os_path_join
    os_path_splitext_root.

Lemma ensures_zfill2 (v : pyval) :
  ensures (zfill2 W v) (fun s => (2 <= String.length s)%nat).
Proof.
  destruct v as [s|l]; [|apply ensures_raise].
  apply ensures_ret. rewrite length_zfill. lia.
Qed.

Lemma ensures_weaken {A} (c : M W A) (P Q : A -> Prop) :
  (forall a, P a -> Q a) -> ensures c P -> ensures c Q.
Proof.
  intros HPQ Hc w. specialize (Hc w).
  destruct (snd (c w)); [exact I | now apply HPQ].
Qed.

Lemma ensures_bind_with {A B} (c : M W A) (k : A -> M W B) (P : A -> Prop)
      (Q : B -> Prop) :
  ensures c P -> (forall a, P a -> ensures (k a) Q) -> ensures (bind c k) Q.
Proof.
  intros Hc Hk w. rewrite bind_run. specialize (Hc w).
  destruct (c w) as [w' [e|a]]; [exact I | now apply Hk].
Qed.

(** [extract_anime_info] never raises.  It answers with nothing at all or
    with a title, a season and an episode together, and then the season and
    the episode are at least two characters long. *)
Theorem extract_anime_info_all_or_nothing (filename : string) :
  never_raises (extract filename)
  /\ ensures (extract filename)
       (fun i =>
          i = no_info
          \/ exists title season episode,
               i = (Some title, Some season, Some episode)
               /\ (2 <= String.length season)%nat
               /\ (2 <= String.length episode)%nat).
Proof.
  split.
  - apply never_raises_catch. intros e. apply never_raises_ret.
  - unfold extract, extract_anime_info, try_except.
    apply ensures_catch; [|intros e; apply ensures_ret; now left].
    apply ensures_bind. intros [d|]; [|apply ensures_ret; now left].
    destruct d as [|kv d]; [apply ensures_ret; now left|].
    destruct (dict_get (kv :: d) "anime_title" (PStr "Unknown")) as [[|c t]|[|x l]].
    + apply ensures_ret. now left.
    + eapply ensures_bind_with; [apply ensures_zfill2 | intros season Hs].
      eapply ensures_bind_with; [apply ensures_zfill2 | intros episode He].
      apply ensures_ret. right. eauto 6.
    + apply ensures_ret. now left.
    + apply ensures_raise.
Qed.

(** The title [extract_anime_info] returns is clean: it holds only letters,
    digits and whitespace, and it neither starts nor ends with whitespace. *)
Theorem extract_anime_info_title_clean (filename : string) :
  ensures (extract filename)
    (fun i =>
       forall title,
         fst (fst i) = Some title ->
         strip title = title /\ forallb_str EnricherSpec.title_char title = true).
Proof.
  unfold extract, extract_anime_info, try_except.
  apply ensures_catch; [|intros e; apply ensures_ret; discriminate].
  apply ensures_bind. intros [d|]; [|apply ensures_ret; discriminate].
  destruct d as [|kv d]; [apply ensures_ret; discriminate|].
  destruct (dict_get (kv :: d) "anime_title" (PStr "Unknown")) as [[|c t]|[|x l]];
    try (apply ensures_ret; discriminate); try apply ensures_raise.
  apply ensures_bind. intros season. apply ensures_bind. intros episode.
  apply ensures_ret. cbn [fst]. intros title [= <-].
  unfold clean_title. split; [apply strip_idempotent|].
  apply forallb_strip, re_sub_special_chars.
Qed.

(** Whatever the world does, [auto_rename_with_anitopy] hands back either
    the input path with no thumbnail and no title, or a display title of at
    most 25 characters together with a path in the directory of the input
    whose file name starts with the service tag and ends in [.mkv]; a
    thumbnail, when there is one, is that path with its extension replaced
    by [_cover.jpg]. *)
Theorem auto_rename_result_shape (file_path service : string) :
  ensures (rename file_path service)
    (fun r =>
       let '(path, thumbnail, title) := r in
       match title with
       | None => path = file_path /\ thumbnail = None
       | Some t =>
           len t <= 25
           /\ (exists name,
                 path = os_path_join (os_path_dirname file_path) name
                 /\ (startswith name "[HD] " = true \/ startswith name "[CR] " = true)
                 /\ endswith name ".mkv" = true)
           /\ (thumbnail = None
               \/ thumbnail = Some (os_path_splitext_root path ++ "_cover.jpg"))
       end).
Proof.
  unfold rename, auto_rename_with_anitopy, try_except.
  apply ensures_catch; [|intros e; apply ensures_ret; now split].
  unfold auto_rename_body.
  apply ensures_bind. intros [[title season] episode].
  destruct title as [[|c t]|]; try (apply ensures_ret; now split).
  cbv zeta.
  set (name := _ ++ " " ++ _).
  assert ((startswith name "[HD] " = true \/ startswith name "[CR] " = true)
          /\ endswith name ".mkv" = true) as Hname.
  { subst name. split.
    - unfold startswith.
      destruct (lower service =? "hidive")%string; [left | right];
        match goal with
        | |- String.prefix ?tag (_ ++ " " ++ ?rest) = true =>
            change (String.prefix tag (tag ++ rest) = true); apply prefix_app
        end.
    - do 9 apply endswith_app_r. reflexivity. }
  apply ensures_bind. intros _.
  apply ensures_bind. intros cover_first.
  apply ensures_bind. intros cover_url.
  destruct (negb (json_truthy cover_url)).
  - apply ensures_ret. split; [apply shorten_le_25|]. split; [|now left].
    exists name. now split.
  - apply ensures_bind. intros ok.
    destruct ok; apply ensures_ret;
      (split; [apply shorten_le_25|]; split; [exists name; now split|]);
      [now right | now left].
Qed.

End EnricherMore.

(** ** The retry loop of [fetch_anilist_cover] *)

Section CatalogFacts.
Import Py Enricher Catalog.
Local Open Scope list_scope.

Lemma fetch_attempt_effect (title : string) (w : Net) :
  let w' := fst (fetch_attempt Net requests_post time_sleep title w) in
  posts w' = posts w ++ [title]
  /\ (naps w' = naps w \/ naps w' = naps w ++ [2%Z]).
Proof.
  unfold fetch_attempt, try_except_RequestException, requests_post, time_sleep,
    of_result.
  cbn. destruct (script w) as [|r rest]; cbn; [auto|].
  destruct r as [e|resp]; cbn; [destruct e; cbn; auto|].
  destruct (status_code resp =? 200)%Z; cbn; [|auto].
  destruct (json_body resp) as [e|data]; cbn; [destruct e; cbn; auto|].
  repeat match goal with
         | |- context [json_get ?v ?k ?d] =>
             destruct (json_get v k d) as [[]|]; cbn; auto
         end.
Qed.

(** [fetch_anilist_cover] asks the catalog at most [retries] times, always
    for the title it was given, and sleeps 2 seconds at most once per
    request. *)
Theorem fetch_anilist_cover_bounded (title : string) (retries : nat) (w : Net) :
  let w' := fst (Catalog.fetch_anilist_cover title retries w) in
  exists new_posts new_naps,
    posts w' = posts w ++ new_posts
    /\ naps w' = naps w ++ new_naps
    /\ (length new_posts <= retries)%nat
    /\ (length new_naps <= length new_posts)%nat
    /\ Forall (eq title) new_posts
    /\ Forall (eq 2%Z) new_naps.
Proof.
  unfold Catalog.fetch_anilist_cover. revert w.
  induction retries as [|n IH]; intros w.
  - exists [], []. cbn. rewrite !app_nil_r. repeat split; auto.
  - cbn [Enricher.fetch_anilist_cover]. rewrite bind_run.
    destruct (fetch_attempt_effect title w) as [Hp Hn].
    destruct (fetch_attempt Net requests_post time_sleep title w) as [w1 [e|r]];
      cbn [fst] in Hp, Hn |- *.
    + exists [title]. destruct Hn as [Hn|Hn].
      * exists []. rewrite app_nil_r. cbn. repeat split; auto; lia.
      * exists [2%Z]. cbn. repeat split; auto; lia.
    + destruct r as [large|].
      * exists [title]. destruct Hn as [Hn|Hn].
        -- exists []. rewrite app_nil_r. cbn. repeat split; auto; lia.
        -- exists [2%Z]. cbn. repeat split; auto; lia.
      * destruct (IH w1) as [ps [ns [Hps [Hns [Hlp [Hln [Hfp Hfn]]]]]]].
        exists (title :: ps). destruct Hn as [Hn|Hn].
        -- exists ns. rewrite Hps, Hns, Hp, Hn, <- app_assoc. cbn.
           repeat split; auto; lia.
        -- exists (2%Z :: ns). rewrite Hps, Hns, Hp, Hn, <- !app_assoc. cbn.
           repeat split; auto; lia.
Qed.

Lemma json_get_error (v : json) (key : string) (default : json) (e : exn) :
  json_get v key default = inl e -> e = AttributeError.
Proof. destruct v; cbn; intros [=]; congruence. Qed.

Lemma fetch_attempt_200 (title : string) (w : Net) (resp : response)
      (rest : list (exn + response)) (data : json) :
  script w = inr resp :: rest ->
  status_code resp = 200%Z ->
  json_body resp = inr data ->
  exists r,
    fetch_attempt Net requests_post time_sleep title w
    = ({| script := rest; posts := posts w ++ [title]; naps := naps w |}, r)
    /\ (r = inl AttributeError \/ exists v, r = inr (Some v)).
Proof.
  intros Hs H200 Hbody.
  unfold fetch_attempt, try_except_RequestException.
  rewrite catch_run, bind_run. unfold requests_post at 1. rewrite Hs, H200.
  cbn [Z.eqb Pos.eqb]. rewrite bind_run. unfold of_result at 1. rewrite Hbody.
  destruct (json_get data "data" (JObj [])) as [e|d] eqn:E1;
    rewrite bind_run; unfold of_result at 1;
    [apply json_get_error in E1; subst e; eexists; split; [reflexivity | now left]|].
  destruct (json_get d "Media" (JObj [])) as [e|m] eqn:E2;
    rewrite bind_run; unfold of_result at 1;
    [apply json_get_error in E2; subst e; eexists; split; [reflexivity | now left]|].
  destruct (json_get m "coverImage" (JObj [])) as [e|c] eqn:E3;
    rewrite bind_run; unfold of_result at 1;
    [apply json_get_error in E3; subst e; eexists; split; [reflexivity | now left]|].
  destruct (json_get c "large" JNull) as [e|large] eqn:E4;
    rewrite bind_run; unfold of_result at 1;
    [apply json_get_error in E4; subst e; eexists; split; [reflexivity | now left]|].
  eexists; split; [reflexivity | right; eauto].
Qed.

Lemma fetch_attempt_200_no_data (title : string) (w : Net) (resp : response)
      (rest : list (exn + response)) (fields : list (string * json)) :
  script w = inr resp :: rest ->
  status_code resp = 200%Z ->
  json_body resp = inr (JObj fields) ->
  json_lookup fields "data" = None ->
  snd (fetch_attempt Net requests_post time_sleep title w) = inr (Some JNull).
Proof.
  intros Hs H200 Hbody Hl.
  unfold fetch_attempt, try_except_RequestException.
  rewrite catch_run, bind_run. unfold requests_post at 1. rewrite Hs, H200.
  cbn [Z.eqb Pos.eqb]. rewrite bind_run. unfold of_result at 1. rewrite Hbody.
  cbn [json_get]. rewrite Hl. reflexivity.
Qed.

(** An answer with status 200 ends the loop at once, without a sleep and
    whatever the body holds; a body that is an object without a [data] key
    gives [None]. *)
Theorem fetch_anilist_cover_200_is_final (title : string) (n : nat) (w : Net)
        (resp : response) (rest : list (exn + response)) (data : json) :
  script w = inr resp :: rest ->
  status_code resp = 200%Z ->
  json_body resp = inr data ->
  let w' := fst (Catalog.fetch_anilist_cover title (S n) w) in
  posts w' = posts w ++ [title]
  /\ naps w' = naps w
  /\ script w' = rest
  /\ (forall fields,
        data = JObj fields -> json_lookup fields "data" = None ->
        snd (Catalog.fetch_anilist_cover title (S n) w) = inr JNull).
Proof.
  intros Hs H200 Hbody.
  destruct (fetch_attempt_200 title w resp rest data Hs H200 Hbody)
    as [r [Hr Hcases]].
  assert (forall fields,
             data = JObj fields -> json_lookup fields "data" = None ->
             r = inr (Some JNull)) as Hnull.
  { intros fields -> Hl.
    pose proof (fetch_attempt_200_no_data title w resp rest fields Hs H200 Hbody Hl)
      as H.
    rewrite Hr in H. exact H. }
  unfold Catalog.fetch_anilist_cover. cbn [Enricher.fetch_anilist_cover].
  rewrite bind_run, Hr.
  destruct Hcases as [-> | [v ->]].
  - cbn. repeat split; auto. intros fields Hd Hl.
    specialize (Hnull fields Hd Hl). discriminate.
  - cbn. repeat split; auto. intros fields Hd Hl.
    specialize (Hnull fields Hd Hl). now injection Hnull as ->.
Qed.

Lemma fetch_anilist_cover_200_is_final_witness :
  snd (Catalog.fetch_anilist_cover "Show" 3 Samples.catalog_empty_answer)
  = inr JNull.
Proof.
  apply (proj2 (proj2 (proj2
           (fetch_anilist_cover_200_is_final "Show" 2 Samples.catalog_empty_answer
              Samples.answer_200_empty [] (JObj []) eq_refl eq_refl eq_refl)))
           []); reflexivity.
Defined.

End CatalogFacts.

(** ** Sign subtitles: what the filter lets through *)

Section SignSubsMore.
Import PyStr Py PySpec SignSubs SignSubsSpec.
Local Open Scope list_scope.

Lemma length_split_max (sep : ascii) (n : nat) (s : string) :
  (List.length (split_max sep n s) <= S n)%nat.
Proof.
  revert n. induction s as [|c s IH]; intros [|n]; cbn [split_max List.length];
    try lia.
  destruct (Ascii.eqb c sep).
  - cbn [List.length]. specialize (IH n). lia.
  - specialize (IH (S n)).
    destruct (split_max sep (S n) s); cbn [List.length] in *; lia.
Qed.

(** One round of the loop adds nothing to the sign lines, or adds the
    stripped line, which then is a sign cue. *)
Lemma scan_line_sign_lines (st : scan) (raw : string) :
  sign_lines (scan_line st raw) = sign_lines st
  \/ (sign_lines (scan_line st raw) = sign_lines st ++ [strip raw]
      /\ sign_cue (strip raw)).
Proof.
  unfold scan_line.
  destruct (startswith (strip raw) "[Events]"); [now left|].
  destruct (in_events st && startswith (strip raw) "Dialogue:") eqn:Hd.
  - apply andb_true_iff in Hd as [_ Hd]. cbv zeta.
    pose proof (length_split_max "," 9 (strip raw)) as Hle.
    destruct (Nat.ltb_spec (List.length (split_max "," 9 (strip raw))) 10)
      as [Hlt|Hge]; [now left|].
    assert (List.length (split_max "," 9 (strip raw)) = 10%nat) as Hlen by lia.
    unfold sign_cue.
    destruct (style_match _) eqn:Hs; [right; now repeat split|].
    destruct (effect_text_match _) eqn:He; [right; now repeat split|].
    destruct (actor_match _) eqn:Ha; [right; now repeat split | now left].
  - destruct (startswith (strip raw) "["); [now left|].
    destruct (negb (in_events st)); now left.
Qed.

Lemma selection_app {A : Type} (k1 r1 k2 r2 : list A) :
  selection k1 r1 -> selection k2 r2 -> selection (k1 ++ k2) (r1 ++ r2).
Proof.
  intros H1 H2. induction H1; cbn; [exact H2 | |]; now constructor.
Qed.

Lemma selection_none {A : Type} (read : list A) : selection [] read.
Proof. induction read; now constructor. Qed.

Lemma scan_lines_sound_from (lines : list string) (st : scan) :
  exists kept,
    sign_lines (fold_left scan_line lines st) = sign_lines st ++ kept
    /\ selection kept (map strip lines)
    /\ Forall sign_cue kept.
Proof.
  revert st. induction lines as [|raw lines IH]; intros st.
  - exists []. cbn. rewrite app_nil_r. repeat split; constructor.
  - cbn [fold_left map].
    destruct (IH (scan_line st raw)) as [kept [He [Hsel Hcue]]].
    destruct (scan_line_sign_lines st raw) as [Hs | [Hs Hc]]; rewrite Hs in He.
    + exists kept. split; [exact He|]. split; [now constructor | exact Hcue].
    + exists (strip raw :: kept). rewrite He, <- app_assoc.
      split; [reflexivity|]. split; [now constructor | now constructor].
Qed.

Lemma selection_In {A : Type} (kept read : list A) (x : A) :
  selection kept read -> In x kept -> In x read.
Proof.
  intros H. induction H; cbn; [tauto | tauto |].
  intros [->|Hin]; [now left | right; auto].
Qed.

(** Nothing reaches the sign track by accident.  The lines the scan keeps
    are a selection of the stripped input lines, each as often as it was
    read and in the order read; and every one of them starts with
    [Dialogue:], splits into exactly ten fields and passes one of the three
    tests. *)
Theorem scan_lines_sound (lines : list string) :
  selection (sign_lines (scan_lines lines)) (map strip lines)
  /\ Forall (fun line => sign_cue line
                         /\ exists raw, In raw lines /\ line = strip raw)
            (sign_lines (scan_lines lines)).
Proof.
  unfold scan_lines.
  destruct (scan_lines_sound_from lines scan_init) as [kept [He [Hsel Hcue]]].
  cbn [sign_lines scan_init app] in He. rewrite He.
  split; [exact Hsel|].
  apply Forall_forall. intros line Hin. split.
  - eapply Forall_forall in Hcue; [exact Hcue | exact Hin].
  - pose proof (selection_In _ _ _ Hsel Hin) as Hm.
    apply in_map_iff in Hm as [raw [Hraw Hl]]. exists raw. now split.
Qed.

Lemma fold_scan_no_events (lines : list string) (st : scan) :
  in_events st = false ->
  Forall (fun raw => startswith (strip raw) "[Events]" = false) lines ->
  fold_left scan_line lines st
  = {| in_events := false; header := header st ++ map strip lines;
       sign_lines := sign_lines st |}.
Proof.
  revert st. induction lines as [|raw lines IH]; intros st Hev Hall.
  - cbn. rewrite app_nil_r. destruct st; cbn in *. now subst.
  - inversion Hall as [|? ? Hraw Hrest]; subst. cbn [fold_left map].
    assert (scan_line st raw
            = {| in_events := false; header := header st ++ [strip raw];
                 sign_lines := sign_lines st |}) as ->.
    { unfold scan_line, add_header. rewrite Hraw, Hev. cbn [andb negb].
      destruct (startswith (strip raw) "["); reflexivity. }
    rewrite IH by (try exact Hrest; reflexivity).
    cbn [header sign_lines]. now rewrite <- app_assoc.
Qed.

(** A track with no [[Events]] line loses nothing and gives no cue: the
    header is every line, stripped, in the order read. *)
Theorem scan_lines_without_events (lines : list string) :
  Forall (fun raw => startswith (strip raw) "[Events]" = false) lines ->
  scan_lines lines
  = {| in_events := false; header := map strip lines; sign_lines := [] |}.
Proof.
  intros Hall. unfold scan_lines.
  rewrite fold_scan_no_events by (try exact Hall; reflexivity). reflexivity.
Qed.

Lemma scan_lines_without_events_witness :
  scan_lines ["[Script Info]"; "  Title: Episode 1 "; "Dialogue: stray"]
  = {| in_events := false;
       header := ["[Script Info]"; "Title: Episode 1"; "Dialogue: stray"];
       sign_lines := [] |}.
Proof.
  apply (scan_lines_without_events
           ["[Script Info]"; "  Title: Episode 1 "; "Dialogue: stray"]).
  repeat constructor.
Defined.

End SignSubsMore.

(** ** Sign subtitles: the two tool steps *)

Section MuxFacts.
Import PyStr Py PySpec SignSubs.

Variable tool : list string -> fs -> fs * (exn + Z).

Lemma temp_name_differs (input_file : string) :
  (input_file =? input_file ++ ".temp.mkv")%string = false.
Proof.
  apply String.eqb_neq. intros H.
  apply (f_equal String.length) in H. rewrite length_app_str in H.
  cbn in H. lia.
Qed.

(** What [add_sign_subtitles] does once the subtitle file is there, by the
    outcome of the muxer and by what the system refuses. *)
Lemma add_sign_subtitles_run (input_file sign_sub_file : string) (w : World)
      (text : string) :
  files w sign_sub_file = Some text ->
  let temp := input_file ++ ".temp.mkv" in
  let command := merge_command temp input_file sign_sub_file in
  let w1 := {| files := fst (tool command (files w));
               calls := (calls w ++ [command])%list;
               locked := locked w |} in
  add_sign_subtitles tool input_file sign_sub_file w
  = match files w1 temp with
    | None => (w1, inr false)
    | Some merged =>
        if locked w temp then (w1, inl OSError)
        else
          let removed := set_files w1 (fs_set (files w1) temp None) in
          match snd (tool command (files w)) with
          | inl _ => (removed, inr false)
          | inr returncode =>
              if negb (returncode =? 0) then (removed, inr false)
              else if locked w input_file then (removed, inr false)
              else (set_files w1
                      (fs_set (fs_set (files w1) input_file (Some merged))
                              temp None),
                    inr true)
          end
    end.
Proof.
  intros Hf temp command w1. unfold add_sign_subtitles, try_except.
  fold temp. fold command.
  rewrite catch_run, bind_run. unfold os_path_exists at 1. rewrite Hf.
  cbn [negb]. rewrite bind_run. unfold subprocess_run at 1.
  subst w1. destruct (tool command (files w)) as [f2 [e|rc]]; cbn [fst snd].
  - rewrite bind_run. unfold os_path_exists, os_remove. cbn [files locked].
    destruct (f2 temp) eqn:E; [|reflexivity].
    rewrite bind_run. cbn [files locked]. rewrite E.
    destruct (locked w temp); reflexivity.
  - destruct (negb (rc =? 0)).
    + rewrite bind_run. unfold os_remove at 1. cbn [files locked].
      destruct (f2 temp) eqn:E.
      * destruct (locked w temp) eqn:L; [|reflexivity].
        rewrite bind_run. unfold os_path_exists, os_remove. cbn [files locked].
        rewrite E, bind_run. cbn [files locked]. rewrite E, L. reflexivity.
      * rewrite bind_run. unfold os_path_exists. cbn [files]. rewrite E.
        reflexivity.
    + rewrite bind_run. unfold os_replace at 1. cbn [files locked].
      destruct (f2 temp) eqn:E.
      * destruct (locked w temp) eqn:L; cbn [orb].
        -- rewrite bind_run. unfold os_path_exists, os_remove.
           cbn [files locked]. rewrite E, bind_run. cbn [files locked].
           rewrite E, L. reflexivity.
        -- destruct (locked w input_file); [|reflexivity].
           rewrite bind_run. unfold os_path_exists, os_remove.
           cbn [files locked]. rewrite E, bind_run. cbn [files locked].
           rewrite E, L. reflexivity.
      * rewrite bind_run. unfold os_path_exists. cbn [files]. rewrite E.
        reflexivity.
Qed.

(** [add_sign_subtitles] does raise, for all its [except Exception]: the
    handler removes the temporary file outside any [try], so the function
    raises exactly when the subtitle file is there, the muxer has left a
    temporary file and the system refuses to remove it.  Without the
    subtitle file it runs nothing, changes nothing and answers [False]. *)
Theorem add_sign_subtitles_raises_iff (input_file sign_sub_file : string)
        (w : World) :
  let temp := input_file ++ ".temp.mkv" in
  let left_by_muxer :=
    fst (tool (merge_command temp input_file sign_sub_file) (files w)) in
  ((exists e, snd (add_sign_subtitles tool input_file sign_sub_file w) = inl e)
   <-> (files w sign_sub_file <> None
        /\ left_by_muxer temp <> None
        /\ locked w temp = true))
  /\ (files w sign_sub_file = None ->
      add_sign_subtitles tool input_file sign_sub_file w = (w, inr false)).
Proof.
  intros temp left_by_muxer.
  assert (files w sign_sub_file = None ->
          add_sign_subtitles tool input_file sign_sub_file w = (w, inr false))
    as Hnone.
  { intros Hf. unfold add_sign_subtitles, try_except.
    rewrite catch_run, bind_run. unfold os_path_exists at 1. rewrite Hf.
    reflexivity. }
  split; [|exact Hnone].
  destruct (files w sign_sub_file) as [text|] eqn:Hf.
  - rewrite (add_sign_subtitles_run input_file sign_sub_file w text Hf).
    cbv zeta. cbn [files]. fold temp. fold left_by_muxer.
    destruct (left_by_muxer temp) as [merged|] eqn:E.
    + destruct (locked w temp) eqn:L.
      * split; [intros _; repeat split; congruence | intros _; now exists OSError].
      * split; [|intros [_ [_ H]]; discriminate].
        intros [e He]. exfalso.
        destruct (snd (tool _ (files w))) as [x|rc]; [discriminate|].
        destruct (negb (rc =? 0)); [discriminate|].
        destruct (locked w input_file); discriminate.
    + split; [intros [e He]; discriminate | intros [_ [H _]]; congruence].
  - rewrite (Hnone eq_refl). split; [intros [e He]; discriminate|].
    intros [H _]. congruence.
Qed.

(** [add_sign_subtitles] leaves a temporary file behind only by raising:
    when the subtitle file is there and the function returns, or the
    system does not refuse the removal, no temporary file is left, whether
    the muxer succeeded, failed or could not start. *)
Theorem add_sign_subtitles_cleans_temp (input_file sign_sub_file : string)
        (w : World) (text : string) :
  files w sign_sub_file = Some text ->
  locked w (input_file ++ ".temp.mkv") = false
  \/ (exists b, snd (add_sign_subtitles tool input_file sign_sub_file w) = inr b) ->
  files (fst (add_sign_subtitles tool input_file sign_sub_file w))
        (input_file ++ ".temp.mkv") = None.
Proof.
  intros Hf Hok.
  rewrite (add_sign_subtitles_run input_file sign_sub_file w text Hf) in *.
  cbv zeta in *. cbn [files] in *.
  set (temp := input_file ++ ".temp.mkv") in *.
  destruct (fst (tool _ (files w)) temp) as [merged|] eqn:E; [|exact E].
  destruct (locked w temp) eqn:L.
  - destruct Hok as [Hl | [b Hb]]; discriminate.
  - destruct (snd (tool _ (files w))) as [x|rc]; [apply fs_set_same|].
    destruct (negb (rc =? 0)); [apply fs_set_same|].
    destruct (locked w input_file); apply fs_set_same.
Qed.

(** When the muxer exits with 0 and has written its output, and the system
    lets the temporary file go, the answer is [True] exactly when the
    input path can be replaced: the container at the input path then is
    the muxer's output, and otherwise it is as the muxer left it.  Either
    way the temporary file is gone and every other file is as the muxer
    left it. *)
Theorem add_sign_subtitles_replaces (input_file sign_sub_file : string)
        (w : World) (text merged : string) (f2 : fs) :
  files w sign_sub_file = Some text ->
  tool (merge_command (input_file ++ ".temp.mkv") input_file sign_sub_file)
       (files w) = (f2, inr 0%Z) ->
  f2 (input_file ++ ".temp.mkv") = Some merged ->
  locked w (input_file ++ ".temp.mkv") = false ->
  exists w',
    add_sign_subtitles tool input_file sign_sub_file w
    = (w', inr (negb (locked w input_file)))
    /\ files w' input_file
       = (if locked w input_file then f2 input_file else Some merged)
    /\ files w' (input_file ++ ".temp.mkv") = None
    /\ (forall p, p <> input_file -> p <> input_file ++ ".temp.mkv" ->
                  files w' p = f2 p).
Proof.
  intros Hf Ht Hm Hl.
  rewrite (add_sign_subtitles_run input_file sign_sub_file w text Hf).
  cbv zeta. cbn [files].
  set (temp := input_file ++ ".temp.mkv") in *.
  rewrite Ht. cbn [fst snd]. rewrite Hm, Hl. cbn [Z.eqb negb].
  pose proof (temp_name_differs input_file) as Hd. fold temp in Hd.
  destruct (locked w input_file); cbn [negb];
    (eexists; split; [reflexivity|]); cbn [files set_files];
    (split; [|split]).
  - unfold fs_set. now rewrite Hd.
  - apply fs_set_same.
  - intros p Hp1 Hp2. unfold fs_set. apply String.eqb_neq in Hp2.
    now rewrite Hp2.
  - unfold fs_set. rewrite Hd, String.eqb_refl. reflexivity.
  - apply fs_set_same.
  - intros p Hp1 Hp2. unfold fs_set.
    apply String.eqb_neq in Hp1, Hp2. now rewrite Hp1, Hp2.
Qed.


End MuxFacts.


Lemma add_sign_subtitles_raises_iff_witness :
  (exists e,
      snd (SignSubs.add_sign_subtitles Samples.tools "videos/show.mkv"
             "videos/show_sign.ass"
             (Samples.disk_refusing "videos/show.mkv.temp.mkv")) = inl e)
  /\ SignSubs.add_sign_subtitles Samples.tools "videos/show.mkv"
       "videos/show_sign.ass" Samples.disk
     = (Samples.disk, inr false).
Proof.
  split.
  - apply (proj1 (add_sign_subtitles_raises_iff Samples.tools "videos/show.mkv"
                    "videos/show_sign.ass"
                    (Samples.disk_refusing "videos/show.mkv.temp.mkv"))).
    repeat split; discriminate.
  - apply (proj2 (add_sign_subtitles_raises_iff Samples.tools "videos/show.mkv"
                    "videos/show_sign.ass" Samples.disk)).
    reflexivity.
Defined.

Lemma add_sign_subtitles_cleans_temp_witness :
  SignSubs.files
    (fst (SignSubs.add_sign_subtitles Samples.tools "videos/show.mkv"
            "videos/show_sign.ass" Samples.disk_with_sign))
    "videos/show.mkv.temp.mkv" = None
  /\ SignSubs.files
       (fst (SignSubs.add_sign_subtitles Samples.tools "videos/show.mkv"
               "videos/show_sign.ass" (Samples.disk_refusing "videos/show.mkv")))
       "videos/show.mkv.temp.mkv" = None.
Proof.
  split.
  - apply (add_sign_subtitles_cleans_temp Samples.tools "videos/show.mkv"
             "videos/show_sign.ass" Samples.disk_with_sign "[Script Info]").
    + reflexivity.
    + left. reflexivity.
  - apply (add_sign_subtitles_cleans_temp Samples.tools "videos/show.mkv"
             "videos/show_sign.ass" (Samples.disk_refusing "videos/show.mkv")
             "[Script Info]").
    + reflexivity.
    + right. exists false. reflexivity.
Defined.

Lemma add_sign_subtitles_replaces_witness :
  (exists w',
      SignSubs.add_sign_subtitles Samples.tools "videos/show.mkv"
        "videos/show_sign.ass" Samples.disk_with_sign = (w', inr true)
      /\ SignSubs.files w' "videos/show.mkv" = Some "merged")
  /\ (exists w',
         SignSubs.add_sign_subtitles Samples.tools "videos/show.mkv"
           "videos/show_sign.ass" (Samples.disk_refusing "videos/show.mkv")
         = (w', inr false)
         /\ SignSubs.files w' "videos/show.mkv" = Some "video").
Proof.
  split.
  - destruct (add_sign_subtitles_replaces Samples.tools "videos/show.mkv"
                "videos/show_sign.ass" Samples.disk_with_sign "[Script Info]"
                "merged"
                (SignSubs.fs_set (SignSubs.files Samples.disk_with_sign)
                   "videos/show.mkv.temp.mkv" (Some "merged"))
                eq_refl eq_refl eq_refl eq_refl) as [w' [H1 [H2 _]]].
    exists w'. split; assumption.
  - destruct (add_sign_subtitles_replaces Samples.tools "videos/show.mkv"
                "videos/show_sign.ass" (Samples.disk_refusing "videos/show.mkv")
                "[Script Info]" "merged"
                (SignSubs.fs_set (SignSubs.files Samples.disk_with_sign)
                   "videos/show.mkv.temp.mkv" (Some "merged"))
                eq_refl eq_refl eq_refl eq_refl) as [w' [H1 [H2 _]]].
    exists w'. split; assumption.
Defined.

(** ** The task queue: what holds under every schedule *)

Section QueueMore.
Import Queue.
Local Open Scope list_scope.
Local Open Scope nat_scope.

Lemma single_flight_when_prompt_witness :
  exists s,
    run init [Submit 1; Start 0; Submit 2; Finish 0; Submit 3; Finish 0] = Some s
    /\ length (running s) <= 1
    /\ live_drains s <= 1
    /\ exists rest,
         submitted [Submit 1; Start 0; Submit 2; Finish 0; Submit 3; Finish 0]
         = completed s ++ rest.
Proof.
  eexists. split; [reflexivity|].
  apply (single_flight_when_prompt
           [Submit 1; Start 0; Submit 2; Finish 0; Submit 3; Finish 0]);
    reflexivity.
Defined.



(** The tasks a state holds: completed, running and queued. *)
Lemma occ_running_set_nth (ds : list drain) (i : nat) (d0 d : drain) (x : task) :
  nth_error ds i = Some d0 ->
  count_occ Nat.eq_dec (running_of (set_nth i d ds)) x + count_occ Nat.eq_dec (running_of [d0]) x
  = count_occ Nat.eq_dec (running_of ds) x + count_occ Nat.eq_dec (running_of [d]) x.
Proof.
  revert i. induction ds as [|y ds IH]; intros [|i] Hn; cbn in Hn; try discriminate.
  - injection Hn as ->. cbn [set_nth].
    change (d :: ds) with ([d] ++ ds). change (d0 :: ds) with ([d0] ++ ds).
    rewrite !running_of_app, !count_occ_app. (unfold task in *; lia).
  - cbn [set_nth]. specialize (IH i Hn).
    change (y :: set_nth i d ds) with ([y] ++ set_nth i d ds).
    change (y :: ds) with ([y] ++ ds).
    rewrite !running_of_app, !count_occ_app. (unfold task in *; lia).
Qed.

Lemma occ_step (s s' : state) (e : event) (x : task) :
  step s e = Some s' ->
  count_occ Nat.eq_dec (completed s') x + count_occ Nat.eq_dec (running s') x + count_occ Nat.eq_dec (task_queue s') x
  = count_occ Nat.eq_dec (completed s) x + count_occ Nat.eq_dec (running s) x + count_occ Nat.eq_dec (task_queue s) x
    + count_occ Nat.eq_dec (submitted [e]) x.
Proof.
  destruct e as [t|i|i]; cbn [step submitted].
  - intros [= <-]. unfold submit, running.
    destruct (current_task s); cbn [completed drains task_queue];
      rewrite ?running_of_app, ?count_occ_app; cbn [running_of count_occ]; unfold task in *; lia.
  - destruct (nth_error (drains s) i) as [[| |]|] eqn:Hn; try discriminate.
    intros [= <-]. unfold loop_head, running.
    destruct (task_queue s) as [|t q]; cbn [completed drains task_queue].
    + pose proof (occ_running_set_nth _ _ _ Returned x Hn) as H.
      cbn [running_of count_occ] in H |- *. (unfold task in *; lia).
    + pose proof (occ_running_set_nth _ _ _ (Awaiting t) x Hn) as H.
      cbn [running_of count_occ] in H |- *.
      destruct (Nat.eq_dec t x); unfold task in *; lia.
  - destruct (nth_error (drains s) i) as [[|t0|]|] eqn:Hn; try discriminate.
    intros [= <-]. unfold task_ends, loop_head, running.
    cbn [completed drains task_queue].
    destruct (task_queue s) as [|t q]; cbn [completed drains task_queue];
      rewrite count_occ_app.
    + pose proof (occ_running_set_nth _ _ _ Returned x Hn) as H.
      cbn [running_of count_occ] in H |- *.
      destruct (Nat.eq_dec t0 x); unfold task in *; lia.
    + pose proof (occ_running_set_nth _ _ _ (Awaiting t) x Hn) as H.
      cbn [running_of count_occ] in H |- *.
      destruct (Nat.eq_dec t0 x); destruct (Nat.eq_dec t x); unfold task in *; lia.
Qed.

Lemma occ_run (es : list event) (s s' : state) (x : task) :
  run s es = Some s' ->
  count_occ Nat.eq_dec (completed s') x + count_occ Nat.eq_dec (running s') x + count_occ Nat.eq_dec (task_queue s') x
  = count_occ Nat.eq_dec (completed s) x + count_occ Nat.eq_dec (running s) x + count_occ Nat.eq_dec (task_queue s) x
    + count_occ Nat.eq_dec (submitted es) x.
Proof.
  revert s. induction es as [|e es IH]; intros s Hrun; cbn [run] in Hrun.
  - injection Hrun as <-. cbn. (unfold task in *; lia).
  - destruct (step s e) as [s1|] eqn:Hstep; [|discriminate].
    rewrite submitted_cons, count_occ_app, (IH s1 Hrun).
    pose proof (occ_step s s1 e x Hstep). (unfold task in *; lia).
Qed.

(** No task is lost or run twice, whatever the event loop does: the
    submitted tasks are, up to order, the completed ones, the running ones
    and the ones still queued. *)
Theorem queue_conserves_tasks (es : list event) (s : state) :
  run init es = Some s ->
  Permutation (submitted es) (completed s ++ running s ++ task_queue s).
Proof.
  intros Hrun. apply (Permutation_count_occ Nat.eq_dec). intros x.
  pose proof (occ_run es init s x Hrun) as H. cbn in H.
  rewrite !count_occ_app. (unfold task in *; lia).
Qed.

Lemma queue_conserves_tasks_witness :
  exists s,
    run init [Submit 1; Submit 2; Start 0; Start 1; Finish 1] = Some s
    /\ Permutation [1; 2] (completed s ++ running s ++ task_queue s).
Proof.
  eexists. split; [reflexivity|].
  apply (queue_conserves_tasks [Submit 1; Submit 2; Start 0; Start 1; Finish 1]).
  reflexivity.
Defined.

Lemma In_set_nth (ds : list drain) (i : nat) (d0 d : drain) :
  nth_error ds i = Some d0 -> In d (set_nth i d ds).
Proof.
  revert i. induction ds as [|y ds IH]; intros [|i] Hn; cbn in Hn; try discriminate.
  - now left.
  - right. now apply (IH i).
Qed.

Lemma alive_step (s s' : state) (e : event) :
  (forall t, current_task s = Some t -> In (Awaiting t) (drains s)) ->
  step s e = Some s' ->
  (forall t, current_task s' = Some t -> In (Awaiting t) (drains s'))
  /\ (task_queue s' <> [] -> exists d, In d (drains s') /\ d <> Returned).
Proof.
  intros Hcur Hstep. destruct e as [t|i|i]; cbn [step] in Hstep.
  - injection Hstep as <-. unfold submit.
    destruct (current_task s) as [c|] eqn:Hc; cbn [current_task drains task_queue].
    + split; [intros t' [= <-]; now apply Hcur|].
      intros _. exists (Awaiting c). split; [now apply Hcur | discriminate].
    + split; [discriminate|].
      intros _. exists Scheduled. split; [|discriminate].
      apply in_or_app. right. now left.
  - destruct (nth_error (drains s) i) as [[| |]|] eqn:Hn; try discriminate.
    injection Hstep as <-. unfold loop_head.
    destruct (task_queue s) as [|t q]; cbn [current_task drains task_queue].
    + split; [discriminate | congruence].
    + split.
      * intros t' [= <-]. now apply (In_set_nth _ _ _ _ Hn).
      * intros _. exists (Awaiting t).
        split; [now apply (In_set_nth _ _ _ _ Hn) | discriminate].
  - destruct (nth_error (drains s) i) as [[|t0|]|] eqn:Hn; try discriminate.
    injection Hstep as <-. unfold task_ends, loop_head.
    cbn [current_task drains task_queue].
    destruct (task_queue s) as [|t q]; cbn [current_task drains task_queue].
    + split; [discriminate | congruence].
    + split.
      * intros t' [= <-]. now apply (In_set_nth _ _ _ _ Hn).
      * intros _. exists (Awaiting t).
        split; [now apply (In_set_nth _ _ _ _ Hn) | discriminate].
Qed.

Lemma alive_run (es : list event) (s s' : state) :
  (forall t, current_task s = Some t -> In (Awaiting t) (drains s)) ->
  (task_queue s <> [] -> exists d, In d (drains s) /\ d <> Returned) ->
  run s es = Some s' ->
  task_queue s' <> [] -> exists d, In d (drains s') /\ d <> Returned.
Proof.
  revert s. induction es as [|e es IH]; intros s Hcur Hq Hrun; cbn [run] in Hrun.
  - injection Hrun as <-. exact Hq.
  - destruct (step s e) as [s1|] eqn:Hstep; [|discriminate].
    destruct (alive_step s s1 e Hcur Hstep) as [Hcur1 Hq1].
    now apply (IH s1).
Qed.

(** No task is left stranded: under every schedule, while the queue holds a
    task there is a drain loop, started or about to start, that has not
    returned. *)
Theorem queued_task_has_a_drain (es : list event) (s : state) :
  run init es = Some s ->
  task_queue s <> [] ->
  1 <= live_drains s.
Proof.
  intros Hrun Hq.
  destruct (alive_run es init s) as [d [Hin Hd]]; try assumption;
    try (cbn; congruence).
  unfold live_drains.
  assert (In d (filter (fun d => match d with Returned => false | _ => true end)
                       (drains s))) as Hf.
  { apply filter_In. split; [exact Hin|]. destruct d; congruence. }
  destruct (filter _ (drains s)); [destruct Hf | cbn; (unfold task in *; lia)].
Qed.

Lemma queued_task_has_a_drain_witness :
  exists s,
    run init [Submit 1; Start 0; Submit 2; Submit 3] = Some s
    /\ 1 <= live_drains s.
Proof.
  eexists. split; [reflexivity|].
  apply (queued_task_has_a_drain [Submit 1; Start 0; Submit 2; Submit 3]);
    [reflexivity | discriminate].
Defined.

End QueueMore.

(** ** The notification adapter: one retry, no more *)

Section AdapterMore.
Import PyStr Py PySpec Telegram.
Local Open Scope list_scope.

(** [safe_edit_message] of [ki.py] sends at most two requests, all with the
    text it was given, and sleeps at most once.  When the first answer is a
    flood wait of [x] seconds it sleeps exactly [x], sends the text once
    more, and its outcome is the answer to that second request. *)
Theorem ki_safe_edit_message_retries_once (message : Message) (new_text : string)
        (w : World) :
  let w' := fst (Ki.safe_edit_message message new_text w) in
  (exists new naps,
      edits w' = edits w ++ new /\ sleeps w' = sleeps w ++ naps
      /\ (length new <= 2)%nat /\ (length naps <= 1)%nat
      /\ Forall (fun e => sent_text e = new_text) new)
  /\ (forall x,
         text message <> new_text ->
         hd None (answers w) = Some (FloodWait x) ->
         sleeps w' = sleeps w ++ [x]
         /\ (exists e1 e2, edits w' = edits w ++ [e1; e2])
         /\ snd (Ki.safe_edit_message message new_text w)
            = match hd None (tl (answers w)) with
              | None => inr tt
              | Some e => inl e
              end).
Proof.
  unfold Ki.safe_edit_message, try_except_FloodWait, edit_text, asyncio_sleep.
  destruct (String.eqb_spec (text message) new_text) as [Heq|Hne].
  - cbn. split.
    + exists [], []. rewrite !app_nil_r. repeat split; auto.
    + intros x Hx. contradiction.
  - cbn. destruct (hd None (answers w)) as [e|] eqn:Hans.
    + destruct e; cbn;
        try solve [split; [exists [{| sent_at := clock w; sent_text := new_text;
                                      accepted := false |}], [];
                           rewrite app_nil_r; repeat split; auto
                          |intros x0 _ [=]]].
      split.
      * destruct (hd None (tl (answers w))); cbn; eexists [_; _], [x];
          rewrite <- app_assoc; cbn; repeat split; auto.
      * intros x0 _ [= <-].
        destruct (hd None (tl (answers w))); cbn; rewrite <- app_assoc; cbn;
          repeat split; eauto.
    + split.
      * exists [{| sent_at := clock w; sent_text := new_text; accepted := true |}], [].
        rewrite app_nil_r. repeat split; auto.
      * intros x _ [=].
Qed.

End AdapterMore.

Lemma ki_safe_edit_message_retries_once_witness :
  Telegram.sleeps
    (fst (Telegram.Ki.safe_edit_message Samples.status "Progress: 20%"
            Samples.channel_flooded))
  = [30%Z]
  /\ snd (Telegram.Ki.safe_edit_message Samples.status "Progress: 20%"
           Samples.channel_flooded)
     = inr tt.
Proof.
  destruct (proj2 (ki_safe_edit_message_retries_once Samples.status "Progress: 20%"
                     Samples.channel_flooded) 30%Z) as [H1 [_ H2]].
  - discriminate.
  - reflexivity.
  - split; [exact H1 | exact H2].
Defined.

(** ** The progress callback: closed gate, refused edit, bar *)

Section ProgressMore.
Import PyStr Py PySpec Telegram.

Variable fmt_2f : Q -> string.
Variable fmt_int : Z -> string.
Variable full_block empty_block : string.

Let progress := progress fmt_2f fmt_int full_block empty_block.

(** While less than 2 seconds have passed since the last accepted status,
    the callback does nothing at all: no request, no change of the gate, and
    no division either, so even a total of zero passes. *)
Theorem progress_closed_gate (current total : Z) (message : Message)
        (filename : string) (start_time : Q) (w : World) :
  (clock w - last_update_time w < 2)%Q ->
  progress current total message filename start_time w = (w, inr tt).
Proof.
  intros Hlt. unfold progress, Telegram.progress, time_time, get_last_update_time.
  rewrite !bind_run.
  destruct (Qle_bool 2 (clock w - last_update_time w)) eqn:E; [|reflexivity].
  apply Qle_bool_iff in E. lra.
Qed.

(** When the channel refuses the edit as unchanged the callback swallows
    the refusal: it returns normally and leaves the gate where it was, so
    the next sample is tried again at once. *)
Theorem progress_swallows_not_modified (current total : Z) (message : Message)
        (filename : string) (start_time : Q) (w : World) :
  (2 <= clock w - last_update_time w)%Q ->
  total <> 0 ->
  hd None (answers w) = Some MessageNotModified ->
  exists w',
    progress current total message filename start_time w = (w', inr tt)
    /\ last_update_time w' = last_update_time w
    /\ clock w' = clock w
    /\ exists e, edits w' = (edits w ++ [e])%list /\ accepted e = false.
Proof.
  intros Hgate Htotal Hans.
  unfold progress, Telegram.progress, time_time, get_last_update_time.
  rewrite !bind_run. apply Qle_bool_iff in Hgate. rewrite Hgate.
  unfold try_except_MessageNotModified. rewrite catch_run, bind_run.
  destruct (progress_figures_nonzero current total start_time (clock w) w Htotal)
    as [f [-> _]].
  rewrite bind_run. unfold edit_text at 1. rewrite Hans.
  eexists. split; [reflexivity|]. cbn. eauto.
Qed.

Lemma py_int_div (a t : Z) :
  0 < t -> py_int (inject_Z a / inject_Z t) = Z.quot a t.
Proof.
  intros Ht. destruct t as [|p|p]; try lia.
  unfold py_int, Qdiv, Qmult, Qinv, inject_Z. cbn.
  f_equal. lia.
Qed.

Lemma progress_figures_bar (current total : Z) (start_time current_time : Q)
      (w : World) :
  0 < total ->
  exists f,
    progress_figures current total start_time current_time w = (w, inr f)
    /\ progress_blocks f = Z.quot (20 * current) total
    /\ empty_blocks f = 20 - progress_blocks f
    /\ progress_percentage f = (inject_Z current / inject_Z total * 100)%Q.
Proof.
  intros Ht. unfold progress_figures.
  set (el := (current_time - start_time)%Q).
  assert (~ (inject_Z total == 0)%Q) as Hq by (apply inject_Z_nonzero; lia).
  assert (forall speed : Q,
             exists eta, (if Qlt_le_dec 0 speed
                          then py_div (inject_Z (total - current)) speed
                          else ret 0%Q) w = (w, inr eta)) as Heta.
  { intros speed. destruct (Qlt_le_dec 0 speed) as [Hs|Hs].
    - rewrite py_div_nonzero by (intros E; rewrite E in Hs; lra). eauto.
    - cbn. eauto. }
  assert (exists speed, (if Qlt_le_dec 0 el
                         then py_div (inject_Z current) el
                         else ret 0%Q) w = (w, inr speed)) as [speed Hspeed].
  { destruct (Qlt_le_dec 0 el) as [Hs|Hs].
    - rewrite py_div_nonzero by (intros E; rewrite E in Hs; lra). eauto.
    - cbn. eauto. }
  destruct (Heta speed) as [eta Heta'].
  rewrite bind_run, Hspeed, bind_run, Heta'.
  rewrite bind_run, py_div_nonzero by exact Hq.
  rewrite bind_run, py_div_nonzero by exact Hq.
  eexists. split; [reflexivity|]. cbn [progress_blocks empty_blocks progress_percentage].
  rewrite py_int_div by exact Ht. repeat split.
Qed.

(** For a sample with [0 <= current <= total] and a positive total the bar
    is well formed: between 0 and 20 filled slots, the rest of the 20 empty,
    and a percentage between 0 and 100. *)
Theorem progress_bar_well_formed (current total : Z) (start_time current_time : Q)
        (w : World) :
  0 <= current <= total ->
  0 < total ->
  exists f,
    progress_figures current total start_time current_time w = (w, inr f)
    /\ 0 <= progress_blocks f <= 20
    /\ 0 <= empty_blocks f
    /\ progress_blocks f + empty_blocks f = 20
    /\ (0 <= progress_percentage f <= 100)%Q.
Proof.
  intros Hc Ht.
  destruct (progress_figures_bar current total start_time current_time w Ht)
    as [f [Hf [Hb [He Hp]]]].
  exists f. split; [exact Hf|].
  assert (0 <= Z.quot (20 * current) total <= 20) as Hq.
  { rewrite Z.quot_div_nonneg by lia. split.
    - apply Z.div_pos; lia.
    - apply Z.div_le_upper_bound; lia. }
  rewrite He, Hb. repeat split; try lia.
  - rewrite Hp.
    assert (0 <= inject_Z current / inject_Z total)%Q as H0.
    { apply Qle_shift_div_l.
      - change 0%Q with (inject_Z 0). rewrite <- Zlt_Qlt. exact Ht.
      - rewrite Qmult_0_l. change 0%Q with (inject_Z 0). rewrite <- Zle_Qle. lia. }
    lra.
  - rewrite Hp.
    assert (inject_Z current / inject_Z total <= 1)%Q as H1.
    { apply Qle_shift_div_r.
      - change 0%Q with (inject_Z 0). rewrite <- Zlt_Qlt. exact Ht.
      - rewrite Qmult_1_l. rewrite <- Zle_Qle. lia. }
    lra.
Qed.

End ProgressMore.

Lemma progress_closed_gate_witness :
  Telegram.progress Samples.fmt_q Samples.fmt_z "#" "-" 0 0 Samples.status
    "show.mkv" 99 (Samples.channel 99)
  = (Samples.channel 99, inr tt).
Proof.
  apply (progress_closed_gate Samples.fmt_q Samples.fmt_z "#" "-" 0 0
           Samples.status "show.mkv" 99 (Samples.channel 99)).
  reflexivity.
Defined.

Lemma progress_swallows_not_modified_witness :
  exists w',
    Telegram.progress Samples.fmt_q Samples.fmt_z "#" "-" 5 10 Samples.status
      "show.mkv" 99 Samples.channel_unchanged = (w', inr tt)
    /\ Telegram.last_update_time w' = 0%Q.
Proof.
  destruct (progress_swallows_not_modified Samples.fmt_q Samples.fmt_z "#" "-"
              5 10 Samples.status "show.mkv" 99 Samples.channel_unchanged)
    as [w' [H1 [H2 _]]].
  - vm_compute. discriminate.
  - discriminate.
  - reflexivity.
  - exists w'. split; [exact H1 | exact H2].
Defined.

Lemma progress_bar_well_formed_witness :
  exists f,
    Telegram.progress_figures 5 10 99 101 (Samples.channel 0)
    = (Samples.channel 0, inr f)
    /\ Telegram.progress_blocks f = 10.
Proof.
  destruct (progress_bar_well_formed 5 10 99 101 (Samples.channel 0))
    as [f [Hf _]]; [lia | lia |].
  exists f. split; [exact Hf|].
  vm_compute in Hf. now injection Hf as <-.
Defined.

(** ** The upload step: what it deletes *)

Section UploadMore.
Import PyStr Py PySpec Telegram.

Variable fmt_2f : Q -> string.
Variable fmt_int : Z -> string.
Variable fmt_exn : exn -> string.
Variable full_block empty_block : string.
Variable os_path_basename : string -> string.

Let upload_step :=
  upload_step fmt_2f fmt_int fmt_exn full_block empty_block os_path_basename.

(** What follows the transfer in the upload step sends no document. *)
Lemma documents_after_transfer (status_message : Message) (latest_file : string)
      (thumbnail_path : option string) (w : World) :
  documents
    (fst ((Ki.safe_edit_message status_message "**Upload complete on Telegram!**" ;;
           os_remove latest_file ;;
           match thumbnail_path with
           | Some p =>
               there <- (if truthy p then os_path_exists p else ret false) ;;
               if there then os_remove p else ret tt
           | None => ret tt
           end)%monad w))
  = documents w.
Proof.
  rewrite documents_after; [apply keeps_ki_safe_edit_message|].
  intros _ w3. rewrite documents_after; [apply documents_os_remove|].
  intros _ w4. destruct thumbnail_path as [p|]; [|reflexivity].
  rewrite bind_run.
  destruct (truthy p); cbn; [|reflexivity].
  destruct (sizes w4 p) eqn:E; cbn; [|reflexivity].
  unfold os_remove. rewrite E. reflexivity.
Qed.

(** The upload step never deletes a file it has not handed to
    [send_document]: if the disk changed at all, the file is among the
    documents sent. *)
Theorem upload_step_deletes_only_sent (status_message : Message)
        (latest_file : string) (thumbnail_path : option string)
        (samples : list sample) (w : World) :
  let w' := fst (upload_step status_message latest_file thumbnail_path samples w) in
  sizes w' = sizes w \/ In latest_file (documents w').
Proof.
  intros w'. unfold w', upload_step, Telegram.upload_step, try_except.
  rewrite catch_run.
  match goal with
  | |- sizes (fst (match ?body w with _ => _ end)) = _ \/ _ =>
      assert (sizes (fst (body w)) = sizes w
              \/ In latest_file (documents (fst (body w)))) as Hbody;
      [|destruct (body w) as [w2 [e|u]]; cbn [fst] in *; [|exact Hbody];
        destruct (keeps_ki_safe_edit_message status_message
                    ("Error during upload: " ++ fmt_exn e) w2) as [Hd Hs];
        rewrite Hd, Hs; exact Hbody]
  end.
  rewrite bind_run.
  destruct (keeps_ki_safe_edit_message status_message "Uploading to Telegram..." w)
    as [Hd1 Hs1].
  destruct (Ki.safe_edit_message status_message "Uploading to Telegram..." w)
    as [w1 [e|u]]; cbn [fst] in Hd1, Hs1 |- *; [now left|].
  rewrite bind_run. unfold os_path_getsize.
  destruct (sizes w1 latest_file) as [n|]; cbn [fst]; [|now left].
  destruct (n >? size_limit); cbv iota.
  - left. rewrite (proj2 (keeps_edit_text _ _ w1)). exact Hs1.
  - right. rewrite bind_run.
    pose proof (proj1 (documents_transfer fmt_2f fmt_int full_block empty_block
                         os_path_basename latest_file samples status_message w1))
      as Ht.
    destruct (Telegram.transfer fmt_2f fmt_int full_block empty_block
                os_path_basename latest_file samples status_message w1)
      as [w2 [e|u2]]; cbn [fst] in Ht |- *.
    + rewrite Ht. apply in_or_app. right. now left.
    + rewrite documents_after_transfer, Ht. apply in_or_app. right. now left.
Qed.

End UploadMore.

(** ** [sanitize_filename] and [cleanup_files] *)

Section MkvFacts.
Import PyStr Py PySpec Mkv.

(** [sanitize_filename] keeps the length of the name, leaves none of the
    unsafe characters in it, and does not touch a name that has none. *)
Theorem sanitize_filename_safe (filename : string) :
  String.length (sanitize_filename filename) = String.length filename
  /\ forallb_str (fun c => negb (is_unsafe c)) (sanitize_filename filename) = true
  /\ (forallb_str (fun c => negb (is_unsafe c)) filename = true ->
      sanitize_filename filename = filename).
Proof.
  induction filename as [|c s [IHl [IHs IHi]]]; cbn [sanitize_filename String.length
                                                   forallb_str].
  - repeat split.
  - split; [now rewrite IHl|]. split.
    + rewrite IHs, andb_true_r. destruct (is_unsafe c) eqn:Hc; [reflexivity|].
      now rewrite Hc.
    + intros H. apply andb_true_iff in H as [Hc Hs].
      apply negb_true_iff in Hc. rewrite Hc, (IHi Hs). reflexivity.
Qed.

Lemma sanitize_filename_safe_witness :
  sanitize_filename "Show S01E01.mkv" = "Show S01E01.mkv".
Proof.
  apply (proj2 (proj2 (sanitize_filename_safe "Show S01E01.mkv"))). reflexivity.
Defined.

(** One argument of [cleanup_files]. *)
Lemma cleanup_one (path : option string) (d : Disk) :
  exists d',
    ((if Enricher.truthy_opt path then
        let p := match path with Some p => p | None => EmptyString end in
        there <- os_path_exists p ;;
        if there then try_except (os_remove p) (fun _ => ret tt) else ret tt
      else ret tt)%monad : M Disk unit) d = (d', inr tt)
    /\ locked d' = locked d
    /\ (forall p, present d' p = true -> present d p = true)
    /\ (forall p, path <> Some p -> present d' p = present d p)
    /\ (forall p, path = Some p -> p <> EmptyString -> locked d p = false ->
                  present d' p = false).
Proof.
  destruct path as [[|c s]|]; cbn [Enricher.truthy_opt truthy].
  - exists d. repeat split; auto. intros p [= <-] H. congruence.
  - cbv zeta. rewrite bind_run. unfold os_path_exists.
    destruct (present d (String c s)) eqn:Hp.
    + unfold try_except. rewrite catch_run. unfold os_remove. rewrite Hp.
      destruct (locked d (String c s)) eqn:Hl; cbn [andb negb].
      * exists d. repeat split; auto. intros p [= <-] _ H. congruence.
      * eexists. split; [reflexivity|]. cbn [present locked].
        split; [reflexivity|]. split; [|split].
        -- intros p. destruct (p =? String c s)%string; [discriminate | auto].
        -- intros p Hne. destruct (String.eqb_spec p (String c s)); [|reflexivity].
           subst. congruence.
        -- intros p [= <-] _ _. now rewrite String.eqb_refl.
    + exists d. repeat split; auto. intros p [= <-] _ _. exact Hp.
  - exists d. repeat split; auto. intros p [=].
Qed.

(** [cleanup_files] never raises.  It creates nothing and touches no file
    outside its arguments; every argument that names a file and can be
    removed is gone afterwards. *)
Theorem cleanup_files_removes (paths : list (option string)) (d : Disk) :
  exists d',
    cleanup_files paths d = (d', inr tt)
    /\ (forall p, present d' p = true -> present d p = true)
    /\ (forall p, ~ In (Some p) paths -> present d' p = present d p)
    /\ (forall p, In (Some p) paths -> p <> EmptyString -> locked d p = false ->
                  present d' p = false).
Proof.
  revert d. induction paths as [|path rest IH]; intros d.
  - exists d. repeat split; auto. intros p [].
  - cbn [cleanup_files]. rewrite bind_run.
    destruct (cleanup_one path d) as [d1 [H1 [Hl1 [Hsub1 [Hout1 Hrm1]]]]].
    cbv zeta in H1. rewrite H1.
    destruct (IH d1) as [d2 [-> [Hsub2 [Hout2 Hrm2]]]].
    exists d2. split; [reflexivity|]. split; [|split].
    + intros p H. auto.
    + intros p Hn. rewrite Hout2, Hout1; [reflexivity | |];
        intros H; apply Hn; [left | right]; assumption.
    + intros p [Hin|Hin] Hne Hl.
      * destruct (present d2 p) eqn:E; [|reflexivity].
        apply Hsub2 in E. rewrite (Hrm1 p Hin Hne Hl) in E. discriminate.
      * apply Hrm2; [exact Hin | exact Hne | now rewrite Hl1].
Qed.

End MkvFacts.

Lemma cleanup_files_removes_witness :
  Mkv.present
    (fst (Mkv.cleanup_files [Some "a.mkv"; None; Some "a_cover.jpg"]
            Samples.work_dir))
    "a.mkv" = false.
Proof.
  destruct (cleanup_files_removes [Some "a.mkv"; None; Some "a_cover.jpg"]
              Samples.work_dir) as [d' [H [_ [_ Hrm]]]].
  rewrite H. apply Hrm; [now left | discriminate | reflexivity].
Defined.

(** ** The newest video *)

Section LatestFacts.
Import PyStr Py PySpec Latest.

Variable os_listdir : string -> exn + list string.
Variable os_path_getctime : string -> exn + Q.
Variable os_path_join : string -> string -> string.

Let ctime (directory f : string) : exn + Q :=
  os_path_getctime (os_path_join directory f).
Let max_by := max_by_ctime os_path_getctime os_path_join.
Let latest := get_latest_file os_listdir os_path_getctime os_path_join.

(** The scan of [max] keeps the best file seen so far: what it returns was
    seen, its creation time was read, and no file seen is newer. *)
Lemma max_by_ctime_newest (directory : string) (rest : list string)
      (best : string) (best_key : Q) (newest : string) :
  ctime directory best = inr best_key ->
  max_by directory best best_key rest tt = (tt, inr newest) ->
  In newest (best :: rest)
  /\ exists k,
       ctime directory newest = inr k
       /\ (best_key <= k)%Q
       /\ forall x, In x rest ->
                    exists kx, ctime directory x = inr kx /\ (kx <= k)%Q.
Proof.
  revert best best_key.
  induction rest as [|x rest IH]; intros best best_key Hbest Hrun.
  - cbn in Hrun. injection Hrun as <-. split; [now left|].
    exists best_key. split; [exact Hbest|]. split; [lra|]. intros x [].
  - unfold max_by in Hrun. cbn [max_by_ctime] in Hrun. rewrite bind_run in Hrun.
    unfold of_result at 1 in Hrun. fold (ctime directory x) in Hrun.
    destruct (ctime directory x) as [e|kx] eqn:Hx; [discriminate|].
    destruct (Qlt_le_dec best_key kx) as [Hlt|Hle].
    + destruct (IH x kx Hx Hrun) as [Hin [k [Hk [Hle' Hall]]]].
      split; [destruct Hin as [<-|Hin]; [right; now left | right; now right]|].
      exists k. split; [exact Hk|]. split; [lra|].
      intros y [<-|Hy]; [exists kx; split; [exact Hx | exact Hle'] | now apply Hall].
    + destruct (IH best best_key Hbest Hrun) as [Hin [k [Hk [Hle' Hall]]]].
      split; [destruct Hin as [<-|Hin]; [now left | right; now right]|].
      exists k. split; [exact Hk|]. split; [exact Hle'|].
      intros y [<-|Hy]; [exists kx; split; [exact Hx | lra] | now apply Hall].
Qed.

(** [get_latest_file] never raises, and it answers [None] when the
    directory cannot be listed or holds no name ending in [.mkv]. *)
Theorem get_latest_file_none (directory : string) :
  never_raises (latest directory)
  /\ (forall e, os_listdir directory = inl e -> latest directory tt = (tt, inr None))
  /\ (forall names,
         os_listdir directory = inr names ->
         Forall (fun f => endswith f ".mkv" = false) names ->
         latest directory tt = (tt, inr None)).
Proof.
  split; [|split].
  - unfold latest, get_latest_file, try_except. apply never_raises_catch.
    intros e. apply never_raises_ret.
  - intros e He. unfold latest, get_latest_file, try_except.
    rewrite catch_run, bind_run. unfold of_result at 1. rewrite He. reflexivity.
  - intros names Hn Hall. unfold latest, get_latest_file, try_except.
    rewrite catch_run, bind_run. unfold of_result at 1. rewrite Hn.
    assert (filter (fun f => endswith f ".mkv") names = []) as ->; [|reflexivity].
    clear Hn. induction Hall as [|f names Hf _ IH]; [reflexivity|].
    cbn [filter]. now rewrite Hf.
Qed.

(** When [get_latest_file] answers with a path, that path is the directory
    joined with a listed name ending in [.mkv], and no listed [.mkv] file
    has a later creation time. *)
Theorem get_latest_file_newest (directory path : string) :
  latest directory tt = (tt, inr (Some path)) ->
  exists names f k,
    os_listdir directory = inr names
    /\ In f names
    /\ endswith f ".mkv" = true
    /\ path = os_path_join directory f
    /\ os_path_getctime path = inr k
    /\ forall g, In g names -> endswith g ".mkv" = true ->
                 exists kg,
                   os_path_getctime (os_path_join directory g) = inr kg
                   /\ (kg <= k)%Q.
Proof.
  unfold latest, get_latest_file, try_except.
  rewrite catch_run, bind_run. unfold of_result at 1.
  destruct (os_listdir directory) as [e|names] eqn:Hn; [intros [=]|].
  cbv zeta.
  destruct (filter (fun f => endswith f ".mkv") names) as [|first rest] eqn:Hf;
    [intros [=]|].
  rewrite bind_run. unfold of_result at 1. fold (ctime directory first).
  destruct (ctime directory first) as [e|k0] eqn:H0; [intros [=]|].
  rewrite bind_run. fold max_by.
  destruct (max_by directory first k0 rest tt) as [[] [e|newest]] eqn:Hm;
    [intros [=]|].
  intros [= <-].
  destruct (max_by_ctime_newest directory rest first k0 newest H0 Hm)
    as [Hin [k [Hk [Hk0 Hall]]]].
  assert (forall g, In g (first :: rest) <-> In g names /\ endswith g ".mkv" = true)
    as Hmem.
  { intros g. rewrite <- Hf. split; intros H.
    - apply filter_In in H. exact H.
    - apply filter_In. exact H. }
  exists names, newest, k.
  split; [reflexivity|]. split; [now apply Hmem|]. split; [now apply Hmem|].
  split; [reflexivity|]. split; [exact Hk|].
  intros g Hg Hext.
  destruct (proj2 (Hmem g) (conj Hg Hext)) as [<-|Hrest].
  - exists k0. split; [exact H0 | exact Hk0].
  - now apply Hall.
Qed.

End LatestFacts.

Lemma get_latest_file_newest_witness :
  exists k,
    Samples.ctimes "videos/b.mkv" = inr k
    /\ forall g, In g ["a.mkv"; "notes.txt"; "b.mkv"] ->
                 PyStr.endswith g ".mkv" = true ->
                 exists kg,
                   Samples.ctimes (Samples.join_slash "videos" g) = inr kg
                   /\ (kg <= k)%Q.
Proof.
  destruct (get_latest_file_newest Samples.listing Samples.ctimes Samples.join_slash
              "videos" "videos/b.mkv" eq_refl)
    as [names [f [k [Hn [_ [_ [_ [Hk Hall]]]]]]]].
  injection Hn as <-. exists k. split; [exact Hk | exact Hall].
Defined.

Lemma get_latest_file_none_witness :
  Latest.get_latest_file Samples.listing Samples.ctimes Samples.join_slash
    "music" tt
  = (tt, inr None).
Proof.
  apply (proj2 (proj2 (get_latest_file_none Samples.listing Samples.ctimes
                         Samples.join_slash "music"))
           ["song.mp3"]); [reflexivity | repeat constructor].
Defined.

(** ** The acquisition command *)

Section CommandFacts.
Import PyStr Command.
Local Open Scope list_scope.

Lemma app_str_assoc (a b c : string) : ((a ++ b) ++ c = a ++ (b ++ c))%string.
Proof. induction a as [|x a IH]; cbn; [reflexivity | now rewrite IH]. Qed.

Lemma app_str_nil_r (a : string) : (a ++ "")%string = a.
Proof. induction a as [|x a IH]; cbn; [reflexivity | now rewrite IH]. Qed.

Lemma truthy_app_r (a b : string) : truthy b = true -> truthy (a ++ b)%string = true.
Proof. destruct a; cbn; [auto | reflexivity]. Qed.

(** Reading a run of non-whitespace characters only extends the current
    token. *)
Lemma split_ws_run (t cur rest : string) :
  forallb_str (fun c => negb (is_space c)) t = true ->
  split_ws cur (t ++ rest)%string = split_ws (cur ++ t)%string rest.
Proof.
  revert cur. induction t as [|c t IH]; intros cur H.
  - cbn. now rewrite app_str_nil_r.
  - cbn [forallb_str] in H. apply andb_true_iff in H as [Hc Ht].
    apply negb_true_iff in Hc.
    change (String c t ++ rest)%string with (String c (t ++ rest)%string).
    cbn [split_ws]. rewrite Hc, (IH _ Ht), app_str_assoc. reflexivity.
Qed.

Lemma split_ws_join (opts : list string) :
  forallb plain_token opts = true ->
  split_ws EmptyString (join " " opts) = opts.
Proof.
  unfold join. induction opts as [|t opts IH]; intros H; [reflexivity|].
  cbn [forallb] in H. apply andb_true_iff in H as [Ht Hopts].
  unfold plain_token in Ht. apply andb_true_iff in Ht as [Hne Hrun].
  destruct opts as [|t2 opts].
  - cbn [String.concat]. pose proof (split_ws_run t EmptyString EmptyString Hrun) as Hs.
    rewrite app_str_nil_r in Hs. rewrite Hs. cbn [append split_ws].
    destruct t; [discriminate | reflexivity].
  - change (String.concat " " (t :: t2 :: opts))
      with (t ++ String " " (String.concat " " (t2 :: opts)))%string.
    rewrite (split_ws_run t _ _ Hrun). cbn [append split_ws].
    change (is_space " ") with true. cbv iota.
    rewrite (IH Hopts). destruct t; [discriminate | reflexivity].
Qed.

(** Options without whitespace reach the tool as they were typed: the
    command is the fixed head for the service, the id, and then exactly the
    options of the message, in order. *)
Theorem download_command_passes_options (name anime_id : string)
        (opts : list string) :
  forallb plain_token opts = true ->
  download_command (name :: anime_id :: opts)
  = if contains "hidive" (lower (join " " opts))
    then ("hidive", ["./aniDL"; "--service"; "hidive"; "-s"; anime_id] ++ opts)
    else ("crunchy", ["./aniDL"; "--service"; "crunchy"; "--srz"; anime_id] ++ opts).
Proof.
  intros H. unfold download_command. cbn [nth skipn].
  rewrite (split_ws_join opts H). reflexivity.
Qed.

Lemma download_command_passes_options_witness :
  download_command ["/download"; "G4PH0WEKE"; "-e"; "3"; "--dubLang"; "jpn"]
  = ("crunchy",
     ["./aniDL"; "--service"; "crunchy"; "--srz"; "G4PH0WEKE";
      "-e"; "3"; "--dubLang"; "jpn"]).
Proof.
  apply (download_command_passes_options "/download" "G4PH0WEKE"
           ["-e"; "3"; "--dubLang"; "jpn"]).
  reflexivity.
Defined.

Lemma split_ws_plain (s cur : string) :
  forallb_str (fun c => negb (is_space c)) cur = true ->
  forallb plain_token (split_ws cur s) = true.
Proof.
  revert cur. induction s as [|c s IH]; intros cur Hcur; cbn [split_ws].
  - destruct cur as [|x cur]; [reflexivity|].
    cbn [forallb]. unfold plain_token. now rewrite Hcur.
  - destruct (is_space c) eqn:Hc.
    + destruct cur as [|x cur]; [now apply IH|].
      cbn [forallb]. unfold plain_token at 1. rewrite Hcur. cbn [truthy andb].
      now apply IH.
    + apply IH. rewrite forallb_app_str, Hcur. cbn [forallb_str].
      now rewrite Hc.
Qed.

(** Whatever the message holds, no option handed to the tool is empty or
    holds whitespace: an option typed with a blank inside is broken up. *)
Theorem download_command_options_plain (command : list string) :
  forallb plain_token (skipn 5 (snd (download_command command))) = true.
Proof.
  unfold download_command.
  destruct (contains "hidive" (lower (join " " (skipn 2 command))));
    cbn [snd app skipn]; now apply split_ws_plain.
Qed.

End CommandFacts.

(** ** The resolution tag and the two adapters *)

Section TagFacts.
Import PyStr Py Enricher Telegram.

Lemma span_digits_spec (s : string) :
  s = (fst (span_digits s) ++ snd (span_digits s))%string
  /\ forallb_str is_digit (fst (span_digits s)) = true.
Proof.
  induction s as [|c s [IHa IHd]]; cbn [span_digits]; [now split|].
  destruct (span_digits s) as [ds r]. cbn [fst snd] in *.
  destruct (is_digit c) eqn:Hc; cbn [fst snd]; [|now split].
  split.
  - cbn [append]. now rewrite <- IHa.
  - cbn [forallb_str]. now rewrite Hc, IHd.
Qed.

Lemma match_resolution_shape (s r : string) :
  match_resolution s = Some r ->
  exists ds,
    r = (ds ++ "p")%string
    /\ truthy ds = true
    /\ forallb_str is_digit ds = true
    /\ String.prefix ("[" ++ r ++ "]")%string s = true.
Proof.
  unfold match_resolution.
  destruct s as [|c s]; [discriminate|].
  destruct (Ascii.eqb_spec c "["%char) as [->|Hc];
    [|destruct c as [[] [] [] [] [] [] [] []]; try discriminate; congruence].
  destruct (span_digits_spec s) as [Hs Hd].
  destruct (span_digits s) as [ds rest]. cbn [fst snd] in *.
  destruct ds as [|d ds]; [discriminate|].
  destruct rest as [|p rest]; [discriminate|].
  destruct (Ascii.eqb_spec p "p"%char) as [->|Hp];
    [|destruct p as [[] [] [] [] [] [] [] []]; try discriminate; congruence].
  destruct rest as [|b rest]; [discriminate|].
  destruct (Ascii.eqb_spec b "]"%char) as [->|Hb];
    [|destruct b as [[] [] [] [] [] [] [] []]; try discriminate; congruence].
  intros [= <-]. exists (String d ds). repeat split; try assumption.
  rewrite Hs.
  change ("[" ++ (String d ds ++ "p") ++ "]")%string
    with (String "[" ((String d ds ++ "p") ++ "]"))%string.
  cbn [String.prefix]. destruct (ascii_dec "[" "["); [|congruence].
  replace (String d ds ++ String "p" (String "]" rest))%string
    with (((String d ds ++ "p") ++ "]") ++ rest)%string.
  - apply prefix_app.
  - rewrite !app_str_assoc. reflexivity.
Qed.

(** The resolution read from a file name is never malformed: it is one or
    more digits followed by [p], and it stands in the name between square
    brackets. *)
Theorem re_search_resolution_shape (s r : string) :
  re_search_resolution s = Some r ->
  exists ds,
    r = (ds ++ "p")%string
    /\ truthy ds = true
    /\ forallb_str is_digit ds = true
    /\ contains ("[" ++ r ++ "]")%string s = true.
Proof.
  induction s as [|c s IH]; cbn [re_search_resolution].
  - destruct (match_resolution EmptyString) eqn:E; [|discriminate].
    cbn in E. discriminate.
  - destruct (match_resolution (String c s)) as [r0|] eqn:E.
    + intros [= <-]. destruct (match_resolution_shape _ _ E) as [ds [H1 [H2 [H3 H4]]]].
      exists ds. repeat split; try assumption. now apply contains_prefix.
    + intros H. destruct (IH H) as [ds [H1 [H2 [H3 H4]]]].
      exists ds. repeat split; try assumption.
      cbn [contains]. rewrite H4. apply orb_true_r.
Qed.

Lemma re_search_resolution_shape_witness :
  re_search_resolution "[Grp] Show - 02 [720p][AAC].mkv" = Some "720p"
  /\ exists ds,
       "720p" = (ds ++ "p")%string
       /\ truthy ds = true
       /\ forallb_str is_digit ds = true
       /\ contains "[720p]" "[Grp] Show - 02 [720p][AAC].mkv" = true.
Proof.
  split; [reflexivity|].
  apply (re_search_resolution_shape "[Grp] Show - 02 [720p][AAC].mkv" "720p").
  reflexivity.
Defined.

(** The adapter of [bot.py] and the adapter of the other scripts differ
    only on a text the message already shows: on any other text they do the
    same requests and sleeps and end the same way. *)
Theorem adapters_agree_on_new_text (message : Message) (new_text : string)
        (w : World) :
  text message <> new_text ->
  Bot.safe_edit_message message new_text w
  = Ki.safe_edit_message message new_text w.
Proof.
  intros Hne. unfold Bot.safe_edit_message, Ki.safe_edit_message.
  apply String.eqb_neq in Hne. now rewrite Hne.
Qed.

Lemma adapters_agree_on_new_text_witness :
  Bot.safe_edit_message Samples.status "Progress: 20%" Samples.channel_flooded
  = Ki.safe_edit_message Samples.status "Progress: 20%" Samples.channel_flooded.
Proof. apply adapters_agree_on_new_text. discriminate. Defined.

End TagFacts.
